(** * A shallow embedding of the battleship engine ([engine.py]).

    Python strings built by the engine (coordinates) are modelled as the
    sequence of their code points, [list Z], because coordinates are
    assembled with [chr()] and [str()]; ship names and cell states, which
    are only compared with literals, are Stdlib [string]s.  Objects that the
    engine shares by reference (ships, referenced by several grid cells) live
    in a heap [gmap nat Ship]; a cell stores the reference.  Methods run in
    a state-and-exception monad in which, as in Python, the mutations made
    before an exception is raised are kept. *)

From Stdlib Require Import String Ascii ZArith List.
From stdpp Require Import base gmap strings list.

Open Scope Z_scope.

(** ** Python strings and the built-ins used by the engine *)

Abbreviation pystr := (list Z).

(** An ASCII literal as a Python string. *)
Definition py (s : string) : pystr :=
  map (fun a => Z.of_nat (nat_of_ascii a)) (list_ascii_of_string s).

(** The exceptions the engine raises or runs into. *)
Inductive Exc :=
| InvalidCoord (coord : pystr)
| AlreadyAssigned (coord : pystr)
| AlreadyAttacked (coord : pystr)
| ValueError
| AttributeError
| TypeError.

(** [chr(n)]: one code point; [ValueError] outside [0, 0x110000). *)
Definition py_chr (n : Z) : Exc + pystr :=
  if (0 <=? n) && (n <? 1114112) then inr [n] else inl ValueError.

(** Decimal digits of [n >= 0], most significant first, before [acc]. *)
Fixpoint dec_digits (fuel : nat) (n : Z) (acc : pystr) : pystr :=
  match fuel with
  | O => acc
  | S f =>
      if n <? 10 then (48 + n) :: acc
      else dec_digits f (n / 10) ((48 + n mod 10) :: acc)
  end.

(** [str(z)] for a Python [int]. *)
Definition py_str_int (z : Z) : pystr :=
  if z <? 0 then 45 :: dec_digits (S (Z.to_nat (- z))) (- z) []
  else dec_digits (S (Z.to_nat z)) z [].

Definition digit_value (c : Z) : option Z :=
  if (48 <=? c) && (c <=? 57) then Some (c - 48) else None.

Fixpoint parse_digits (s : pystr) (acc : Z) : option Z :=
  match s with
  | [] => Some acc
  | c :: t =>
      match digit_value c with
      | Some d => parse_digits t (acc * 10 + d)
      | None => None
      end
  end.

(** [int(s)] on a string of an optional sign and decimal digits (the only
    strings the engine passes to [int]: a digit group of the coordinate
    regex); anything else raises [ValueError]. *)
Definition py_int (s : pystr) : Exc + Z :=
  let digits t := match t with
                  | [] => None
                  | _ => parse_digits t 0
                  end in
  let r := match s with
           | c :: t =>
               if c =? 45 then option_map Z.opp (digits t)
               else if c =? 43 then digits t
               else digits s
           | [] => None
           end in
  match r with Some z => inr z | None => inl ValueError end.

(** ** Engine data *)

Inductive OutcomeState := MISS | HIT | SUNK | WIN.

Inductive Orientation := PORTRAIT | LANDSCAPE.

#[global] Instance Orientation_eq_dec : EqDecision Orientation.
Proof. solve_decision. Defined.

Record Ship := mkShip {
  name : string;
  ship_size : nat;
  hits : nat;
  code : string
}.

Record Outcome := mkOutcome {
  outcome_state : OutcomeState;
  ship_name : option string
}.

Definition Outcome_miss : Outcome := mkOutcome MISS None.
Definition Outcome_hit (s : Ship) : Outcome := mkOutcome HIT (Some (name s)).
Definition Outcome_sunk (s : Ship) : Outcome := mkOutcome SUNK (Some (name s)).
Definition Outcome_win (s : Ship) : Outcome := mkOutcome WIN (Some (name s)).

(** [GridSpace.grid] is the [BattleGrid] for cells made by
    [_set_grid_space] and the [Player] for misses made by [receive_attack]. *)
Inductive Owner := OwnerBattleGrid | OwnerPlayer.

Record GridSpace := mkGridSpace {
  gs_grid : Owner;
  gs_coord : pystr;
  gs_ship : option nat;
  gs_state : string
}.

(** The player's [BattleGrid] ([grid], [active_ship_count]) and the heap of
    [Ship] objects. *)
Record World := mkWorld {
  grid : gmap pystr GridSpace;
  active_ship_count : Z;
  ships : gmap nat Ship
}.

Definition with_grid (g : gmap pystr GridSpace) (w : World) : World :=
  mkWorld g (active_ship_count w) (ships w).
Definition with_count (n : Z) (w : World) : World :=
  mkWorld (grid w) n (ships w).
Definition with_ships (h : gmap nat Ship) (w : World) : World :=
  mkWorld (grid w) (active_ship_count w) h.

Definition Ship_carrier : Ship := mkShip "Carrier" 5 0 "C".
Definition Ship_battleship : Ship := mkShip "Battleship" 4 0 "B".
Definition Ship_cruiser : Ship := mkShip "Cruiser" 3 0 "R".
Definition Ship_submarine : Ship := mkShip "Submarine" 3 0 "S".
Definition Ship_destroyer : Ship := mkShip "Destroyer" 2 0 "D".

Definition Ship_hit (s : Ship) : Ship :=
  mkShip (name s) (ship_size s) (S (hits s)) (code s).

Definition is_sunk (s : Ship) : bool := (ship_size s <=? hits s)%nat.

(** ** The state-and-exception monad *)

Definition M (A : Type) : Type := World -> World * (Exc + A).

Definition ret {A} (a : A) : M A := fun w => (w, inr a).
Definition bind {A B} (m : M A) (k : A -> M B) : M B :=
  fun w => match m w with
           | (w', inr a) => k a w'
           | (w', inl e) => (w', inl e)
           end.
Definition raise {A} (e : Exc) : M A := fun w => (w, inl e).
Definition lift {A} (r : Exc + A) : M A := fun w => (w, r).
Definition gets {A} (f : World -> A) : M A := fun w => (w, inr (f w)).
Definition modify (f : World -> World) : M unit := fun w => (f w, inr tt).
(** [try: m except e: h(e)]; the state reached when [m] raised is kept. *)
Definition catch {A} (m : M A) (h : Exc -> M A) : M A :=
  fun w => match m w with
           | (w', inl e) => h e w'
           | r => r
           end.

Notation "'let!' x ':=' m 'in' k" := (bind m (fun x => k))
  (at level 200, x name, m at level 100, k at level 200).

(** Reading an attribute of a ship object. *)
Definition load_ship (r : nat) : M Ship :=
  fun w => match ships w !! r with
           | Some s => (w, inr s)
           | None => (w, inl AttributeError)
           end.

Definition store_ship (r : nat) (s : Ship) : M unit :=
  modify (fun w => with_ships (<[r := s]> (ships w)) w).

(** Sequencing in the pure error monad. *)
Definition sbind {A B} (r : Exc + A) (k : A -> Exc + B) : Exc + B :=
  match r with inl e => inl e | inr a => k a end.

Fixpoint mapE {A B} (f : A -> Exc + B) (l : list A) : Exc + list B :=
  match l with
  | [] => inr []
  | x :: t => sbind (f x) (fun y => sbind (mapE f t) (fun ys => inr (y :: ys)))
  end.

(** ** [BattleGrid] *)

(** [re.search(r'^([A-H])([0-8])$', coord)]: without MULTILINE, [^] anchors
    at the start and [$] matches at the end or just before a final newline
    (code point 10). The result is the pair of groups. *)
Definition is_A_H (c : Z) : bool := (65 <=? c) && (c <=? 72).
Definition is_0_8 (c : Z) : bool := (48 <=? c) && (c <=? 56).

Definition coord_regex_search (coord : pystr) : option (pystr * pystr) :=
  match coord with
  | [l; d] => if is_A_H l && is_0_8 d then Some ([l], [d]) else None
  | [l; d; nl] =>
      if is_A_H l && is_0_8 d && (nl =? 10) then Some ([l], [d]) else None
  | _ => None
  end.

Definition valid_coord (coord : pystr) : bool :=
  match coord_regex_search coord with Some _ => true | None => false end.

Definition split_coord (coord : pystr) : Exc + (pystr * pystr) :=
  match coord_regex_search coord with
  | Some t => inr t
  | None => inl (InvalidCoord coord)
  end.

(** [x_raised = [x_ords[i] * digit_domain ** i for i in range(len(x_ords))]] *)
Fixpoint raised (digit_domain : Z) (x_ords : list Z) (i : nat) : list Z :=
  match x_ords with
  | [] => []
  | o :: t => o * digit_domain ^ Z.of_nat i :: raised digit_domain t (S i)
  end.

Definition coord_tuple_to_index_tuple (coord_tuple : pystr * pystr)
  : Exc + (Z * Z) :=
  let digit_domain := 3 in
  let x_ords := rev (map (fun c => c - 64) coord_tuple.1) in
  let x := fold_right Z.add 0 (raised digit_domain x_ords 0) - 1 in
  sbind (py_int coord_tuple.2) (fun col => inr (x, col - 1)).

Definition index_tuple_to_coord_tuple (index_tuple : Z * Z)
  : Exc + (pystr * Z) :=
  let '(index_x, index_y) := index_tuple in
  sbind (py_chr (index_x + 65)) (fun c => inr (c, index_y + 1)).

(** ['{0}{1}'.format(coord_tuple[0], coord_tuple[1])] *)
Definition tuple_to_coord (coord_tuple : pystr * Z) : pystr :=
  coord_tuple.1 ++ py_str_int coord_tuple.2.

(** [range(a, a + n)] *)
Definition zrange (a : Z) (n : nat) : list Z :=
  map (fun i => a + Z.of_nat i) (seq 0 n).

Definition encode_index (index_tuple : Z * Z) : Exc + pystr :=
  sbind (index_tuple_to_coord_tuple index_tuple) (fun t => inr (tuple_to_coord t)).

(** [_calculate_coords]; its final [else: return []] is unreachable here
    since [Orientation] has two constructors. *)
Definition calculate_coords (origin_coord : pystr * pystr)
  (orientation : Orientation) (size : nat) : Exc + list pystr :=
  sbind (coord_tuple_to_index_tuple origin_coord) (fun '(origin_row, origin_column) =>
  match orientation with
  | LANDSCAPE =>
      mapE (fun column => encode_index (origin_row, column))
           (zrange origin_column size)
  | PORTRAIT =>
      mapE (fun row => encode_index (row, origin_column))
           (zrange origin_row size)
  end).

Definition set_grid_space (coord : pystr) (ship : nat) : M unit :=
  if negb (valid_coord coord) then raise (InvalidCoord coord) else
  let! g := gets grid in
  match g !! coord with
  | None =>
      modify (with_grid (<[coord := mkGridSpace OwnerBattleGrid coord (Some ship) ""]> g))
  | Some _ => raise (AlreadyAssigned coord)
  end.

(** [for coord in coords: if not valid: raise ...; if coord in grid: raise ...] *)
Fixpoint validate_coords (coords : list pystr) : M unit :=
  match coords with
  | [] => ret tt
  | coord :: rest =>
      if negb (valid_coord coord) then raise (InvalidCoord coord) else
      let! g := gets grid in
      match g !! coord with
      | Some _ => raise (AlreadyAssigned coord)
      | None => validate_coords rest
      end
  end.

(** [for coord in coords: self._set_grid_space(coord, ship)] *)
Fixpoint set_grid_spaces (coords : list pystr) (ship : nat) : M unit :=
  match coords with
  | [] => ret tt
  | coord :: rest =>
      let! _ := set_grid_space coord ship in set_grid_spaces rest ship
  end.

Definition place_ship (ship : nat) (origin_coord : pystr)
  (orientation : Orientation) : M unit :=
  if negb (valid_coord origin_coord) then raise (InvalidCoord origin_coord) else
  let! coord_tuple := lift (split_coord origin_coord) in
  let! s := load_ship ship in
  let! coords := lift (calculate_coords coord_tuple orientation (ship_size s)) in
  let! _ := validate_coords coords in
  let! _ := set_grid_spaces coords ship in
  modify (fun w => with_count (active_ship_count w + 1) w).

Definition reset : M unit :=
  modify (fun w => mkWorld ∅ 0 (ships w)).

(** ** [GridSpace] and [Player] *)

Definition already_attacked (self : GridSpace) : bool :=
  negb (String.eqb (gs_state self) "").

(** [_hit]: the cell object is the value stored in the grid under [key]. *)
Definition hit_space (key : pystr) (self : GridSpace) : M GridSpace :=
  match gs_ship self with
  | Some r =>
      let self' := mkGridSpace (gs_grid self) (gs_coord self) (gs_ship self) "hit" in
      let! _ := modify (fun w => with_grid (<[key := self']> (grid w)) w) in
      let! s := load_ship r in
      let! _ := store_ship r (Ship_hit s) in
      ret self'
  | None => ret self
  end.

Definition attack (key : pystr) (self : GridSpace) : M Outcome :=
  if already_attacked self then raise (AlreadyAttacked (gs_coord self)) else
  let! self := hit_space key self in
  match gs_ship self with
  | None => raise AttributeError (* None.is_sunk() *)
  | Some r =>
      let! s := load_ship r in
      if is_sunk s then
        match gs_grid self with
        | OwnerPlayer => raise AttributeError (* Player has no active_ship_count *)
        | OwnerBattleGrid =>
            let! _ := modify (fun w => with_count (active_ship_count w - 1) w) in
            let! n := gets active_ship_count in
            if n =? 0 then ret (Outcome_win s) else ret (Outcome_sunk s)
        end
      else ret (Outcome_hit s)
  end.

Definition receive_attack (coord : pystr) : M Outcome :=
  let! g := gets grid in
  match g !! coord with
  | Some targeted => attack coord targeted
  | None =>
      let! _ := modify (with_grid (<[coord := mkGridSpace OwnerPlayer coord None "miss"]> g)) in
      ret Outcome_miss
  end.

(** A fresh [Player] grid over a heap of ships. *)
Definition fresh_world (h : gmap nat Ship) : World := mkWorld ∅ 0 h.

(** The scenario of [tests.py]: Submarine (ref 0) landscape at A1 and
    Destroyer (ref 1) portrait at C7. *)
Definition test_world : World :=
  let h : gmap nat Ship := <[0%nat := Ship_submarine]> (<[1%nat := Ship_destroyer]> ∅) in
  fst ((let! _ := place_ship 0 (py "A1") LANDSCAPE in
        place_ship 1 (py "C7") PORTRAIT) (fresh_world h)).

Fixpoint run_attacks (coords : list string) : M (list Outcome) :=
  match coords with
  | [] => ret []
  | c :: t => let! o := receive_attack (py c) in
              let! os := run_attacks t in ret (o :: os)
  end.

(** ** [BattleGrid.random_layout]

    The random source is a function giving the [i]-th draw
    [(random.choice('ABCDEFGH') + random.choice('12345678'),
      random.choice(list(Orientation)))].  [fuel] bounds the number of loop
    iterations: a result [None] means the Python loop is still running. *)

Definition max_attempts : nat := 8 * 8 * 2.

Definition Draw : Type := (pystr * Orientation)%type.

(** One attempt: [place_ship] inside [try]; [AlreadyAssigned] and
    [InvalidCoord] are swallowed, any other exception reaches
    [traceback.print_exc(e)], which raises [TypeError] (an exception passed
    as [limit]). The boolean tells whether the ship was placed. *)
Definition try_place (ship : nat) (coord_and_orientation : Draw) : M bool :=
  catch (let! _ := place_ship ship coord_and_orientation.1 coord_and_orientation.2 in
         ret true)
        (fun e => match e with
                  | AlreadyAssigned _ | InvalidCoord _ => ret false
                  | _ => raise TypeError
                  end).

(** The inner [while len(attempted) < max_attempts and len(ships_remaining) > 0]
    loop; [attempted] is a set, kept as a duplicate-free list. *)
Fixpoint layout_attempts (fuel : nat) (rng : nat -> Draw) (i : nat)
  (attempted : list Draw) (ships_remaining : list nat)
  : M (option (nat * list Draw * list nat)) :=
  match fuel with
  | O => ret None
  | S f =>
      match ships_remaining with
      | ship :: rest =>
          if (length attempted <? max_attempts)%nat then
            let coord_and_orientation := rng i in
            if bool_decide (coord_and_orientation ∈ attempted) then
              layout_attempts f rng (S i) attempted ships_remaining
            else
              let! placed := try_place ship coord_and_orientation in
              layout_attempts f rng (S i) (attempted ++ [coord_and_orientation])
                (if placed then rest else ships_remaining)
          else ret (Some (i, attempted, ships_remaining))
      | [] => ret (Some (i, attempted, ships_remaining))
      end
  end.

(** The outer [while len(ships_remaining) > 0] loop; on failure
    [ships_remaining = ships[:]] and [self.reset()]. *)
Fixpoint random_layout_loop (fuel : nat) (rng : nat -> Draw) (ships : list nat)
  (i : nat) (attempted : list Draw) (ships_remaining : list nat) : M (option unit) :=
  match fuel with
  | O => ret None
  | S f =>
      match ships_remaining with
      | [] => ret (Some tt)
      | _ :: _ =>
          let! r := layout_attempts fuel rng i attempted ships_remaining in
          match r with
          | None => ret None
          | Some (i', attempted', []) => random_layout_loop f rng ships i' attempted' []
          | Some (i', attempted', _ :: _) =>
              let! _ := reset in
              random_layout_loop f rng ships i' attempted' ships
          end
      end
  end.

Definition random_layout (fuel : nat) (rng : nat -> Draw) (ships : list nat) : M (option unit) :=
  random_layout_loop fuel rng ships 0 [] ships.

(** A three-ship fleet of sizes 8, 7 and 2 (refs 0, 1, 2) and an order of
    the 128 draws in which the first two ships are placed at A1 landscape
    and B1 portrait after every draw illegal for them has been tried. *)
Definition long_fleet_heap : gmap nat Ship :=
  <[0%nat := mkShip "Long" 8 0 "L"]> (<[1%nat := mkShip "Mid" 7 0 "M"]>
    (<[2%nat := mkShip "Short" 2 0 "S"]> ∅)).

Definition draw_order : list Draw :=
  [ (py "A2", LANDSCAPE); (py "A3", LANDSCAPE); (py "A4", LANDSCAPE); (py "A5", LANDSCAPE);
   (py "A6", LANDSCAPE); (py "A7", LANDSCAPE); (py "A8", LANDSCAPE); (py "B2", LANDSCAPE);
   (py "B2", PORTRAIT); (py "B3", LANDSCAPE); (py "B3", PORTRAIT); (py "B4", LANDSCAPE);
   (py "B4", PORTRAIT); (py "B5", LANDSCAPE); (py "B5", PORTRAIT); (py "B6", LANDSCAPE);
   (py "B6", PORTRAIT); (py "B7", LANDSCAPE); (py "B7", PORTRAIT); (py "B8", LANDSCAPE);
   (py "B8", PORTRAIT); (py "C1", PORTRAIT); (py "C2", LANDSCAPE); (py "C2", PORTRAIT);
   (py "C3", LANDSCAPE); (py "C3", PORTRAIT); (py "C4", LANDSCAPE); (py "C4", PORTRAIT);
   (py "C5", LANDSCAPE); (py "C5", PORTRAIT); (py "C6", LANDSCAPE); (py "C6", PORTRAIT);
   (py "C7", LANDSCAPE); (py "C7", PORTRAIT); (py "C8", LANDSCAPE); (py "C8", PORTRAIT);
   (py "D1", PORTRAIT); (py "D2", LANDSCAPE); (py "D2", PORTRAIT); (py "D3", LANDSCAPE);
   (py "D3", PORTRAIT); (py "D4", LANDSCAPE); (py "D4", PORTRAIT); (py "D5", LANDSCAPE);
   (py "D5", PORTRAIT); (py "D6", LANDSCAPE); (py "D6", PORTRAIT); (py "D7", LANDSCAPE);
   (py "D7", PORTRAIT); (py "D8", LANDSCAPE); (py "D8", PORTRAIT); (py "E1", PORTRAIT);
   (py "E2", LANDSCAPE); (py "E2", PORTRAIT); (py "E3", LANDSCAPE); (py "E3", PORTRAIT);
   (py "E4", LANDSCAPE); (py "E4", PORTRAIT); (py "E5", LANDSCAPE); (py "E5", PORTRAIT);
   (py "E6", LANDSCAPE); (py "E6", PORTRAIT); (py "E7", LANDSCAPE); (py "E7", PORTRAIT);
   (py "E8", LANDSCAPE); (py "E8", PORTRAIT); (py "F1", PORTRAIT); (py "F2", LANDSCAPE);
   (py "F2", PORTRAIT); (py "F3", LANDSCAPE); (py "F3", PORTRAIT); (py "F4", LANDSCAPE);
   (py "F4", PORTRAIT); (py "F5", LANDSCAPE); (py "F5", PORTRAIT); (py "F6", LANDSCAPE);
   (py "F6", PORTRAIT); (py "F7", LANDSCAPE); (py "F7", PORTRAIT); (py "F8", LANDSCAPE);
   (py "F8", PORTRAIT); (py "G1", PORTRAIT); (py "G2", LANDSCAPE); (py "G2", PORTRAIT);
   (py "G3", LANDSCAPE); (py "G3", PORTRAIT); (py "G4", LANDSCAPE); (py "G4", PORTRAIT);
   (py "G5", LANDSCAPE); (py "G5", PORTRAIT); (py "G6", LANDSCAPE); (py "G6", PORTRAIT);
   (py "G7", LANDSCAPE); (py "G7", PORTRAIT); (py "G8", LANDSCAPE); (py "G8", PORTRAIT);
   (py "H1", PORTRAIT); (py "H2", LANDSCAPE); (py "H2", PORTRAIT); (py "H3", LANDSCAPE);
   (py "H3", PORTRAIT); (py "H4", LANDSCAPE); (py "H4", PORTRAIT); (py "H5", LANDSCAPE);
   (py "H5", PORTRAIT); (py "H6", LANDSCAPE); (py "H6", PORTRAIT); (py "H7", LANDSCAPE);
   (py "H7", PORTRAIT); (py "H8", LANDSCAPE); (py "H8", PORTRAIT); (py "A1", LANDSCAPE);
   (py "A1", PORTRAIT); (py "A2", PORTRAIT); (py "A3", PORTRAIT); (py "A4", PORTRAIT);
   (py "A5", PORTRAIT); (py "A6", PORTRAIT); (py "A7", PORTRAIT); (py "A8", PORTRAIT);
   (py "B1", PORTRAIT); (py "B1", LANDSCAPE); (py "C1", LANDSCAPE); (py "D1", LANDSCAPE);
   (py "E1", LANDSCAPE); (py "F1", LANDSCAPE); (py "G1", LANDSCAPE); (py "H1", LANDSCAPE) ].

Definition draw_rng (i : nat) : Draw := nth i draw_order (py "A1", LANDSCAPE).

(** ** Auxiliary definitions for the proofs *)

Definition is_digit (c : Z) : Prop := 48 <= c <= 57.

Definition new_cell (ship : nat) (coord : pystr) : GridSpace :=
  mkGridSpace OwnerBattleGrid coord (Some ship) "".

(** The error of the first computed cell that fails the validity test or is
    already in the grid. *)
Fixpoint first_bad_coord (g : gmap pystr GridSpace) (coords : list pystr) : option Exc :=
  match coords with
  | [] => None
  | coord :: rest =>
      if negb (valid_coord coord) then Some (InvalidCoord coord)
      else match g !! coord with
           | Some _ => Some (AlreadyAssigned coord)
           | None => first_bad_coord g rest
           end
  end.

Definition insert_cells (ship : nat) (coords : list pystr)
  (g : gmap pystr GridSpace) : gmap pystr GridSpace :=
  fold_left (fun g coord => <[coord := new_cell ship coord]> g) coords g.

(** The coordinate grammar in the spec's words: exactly one letter A-H
    followed by exactly one digit 1-8. *)
Definition spec_valid_coord (coord : pystr) : bool :=
  match coord with
  | [l; d] => is_A_H l && (49 <=? d) && (d <=? 56)
  | _ => false
  end.

(** Decoding a coordinate string to its zero-based index pair, as
    [place_ship] and the views in [main.py] do. *)
Definition decode_coord (coord : pystr) : Exc + (Z * Z) :=
  sbind (split_coord coord) coord_tuple_to_index_tuple.

Definition hit_cell (c : GridSpace) : GridSpace :=
  mkGridSpace (gs_grid c) (gs_coord c) (gs_ship c) "hit".

(** Every cell is keyed by its own coordinate, and either is a miss without
    a ship or holds a ship (present in the heap) on the [BattleGrid], not yet
    attacked or hit. *)
Definition cell_ok (w : World) (k : pystr) (c : GridSpace) : Prop :=
  gs_coord c = k /\
  ((gs_ship c = None /\ gs_state c = "miss"%string) \/
   (exists r, gs_ship c = Some r /\ is_Some (ships w !! r) /\
              gs_grid c = OwnerBattleGrid /\
              (gs_state c = ""%string \/ gs_state c = "hit"%string))).

Definition cells_ok (w : World) : Prop :=
  forall k c, grid w !! k = Some c -> cell_ok w k c.

(** States reachable from a fresh grid through the public operations. *)
Inductive reachable : World -> Prop :=
| reach_fresh (h : gmap nat Ship) : reachable (fresh_world h)
| reach_place (w : World) (ship : nat) (origin : pystr) (o : Orientation) :
    reachable w -> reachable (fst (place_ship ship origin o w))
| reach_attack (w : World) (coord : pystr) :
    reachable w -> reachable (fst (receive_attack coord w))
| reach_reset (w : World) : reachable w -> reachable (fst (reset w)).

Definition present {K A : Type} `{Countable K} (P : K * A -> Prop) `{!forall x, Decision (P x)}
  (m : gmap K A) (i : K) : nat :=
  match m !! i with
  | Some x => if decide (P (i, x)) then 1%nat else 0%nat
  | None => 0%nat
  end.

(** Ship [r] is referenced by some cell of the grid. *)
Definition ship_placed (g : gmap pystr GridSpace) (r : nat) : Prop :=
  map_Exists (fun _ c => gs_ship c = Some r) g.

#[global] Instance ship_placed_dec g r : Decision (ship_placed g r).
Proof. unfold ship_placed. apply _. Defined.

(** A heap entry is live when the ship is on the grid and not sunk. *)
Definition ship_live (g : gmap pystr GridSpace) (rs : nat * Ship) : Prop :=
  ship_placed g rs.1 /\ is_sunk rs.2 = false.

#[global] Instance ship_live_dec g rs : Decision (ship_live g rs).
Proof. unfold ship_live. apply _. Defined.

(** The number of distinct ships placed on the grid that are not sunk. *)
Definition live_count (w : World) : nat := size (filter (ship_live (grid w)) (ships w)).

Definition unattacked_cell (r : nat) (kc : pystr * GridSpace) : Prop :=
  gs_ship kc.2 = Some r /\ gs_state kc.2 = ""%string.

#[global] Instance unattacked_cell_dec r kc : Decision (unattacked_cell r kc).
Proof. unfold unattacked_cell. apply _. Defined.

(** The number of cells of ship [r] not yet attacked. *)
Definition unattacked (r : nat) (g : gmap pystr GridSpace) : nat :=
  size (filter (unattacked_cell r) g).

(** States reachable from a fresh grid, each ship placed at most once:
    [used] holds the ships placed so far. The heap starts with unhit ships
    of positive size, as the [Ship] subclasses build them. *)
Inductive reach_once : gset nat -> World -> Prop :=
| ro_fresh (h : gmap nat Ship) :
    (forall r s, h !! r = Some s -> hits s = 0%nat /\ (0 < ship_size s)%nat) ->
    reach_once ∅ (fresh_world h)
| ro_place (used : gset nat) (w : World) (ship : nat) (origin : pystr) (o : Orientation) :
    reach_once used w -> ship ∉ used ->
    reach_once (match snd (place_ship ship origin o w) with
                | inr _ => {[ship]} ∪ used
                | inl _ => used
                end) (fst (place_ship ship origin o w))
| ro_attack (used : gset nat) (w : World) (coord : pystr) :
    reach_once used w -> reach_once used (fst (receive_attack coord w))
| ro_reset (used : gset nat) (w : World) :
    reach_once used w -> reach_once used (fst (reset w)).

Record inv (used : gset nat) (w : World) : Prop := {
  inv_cells : cells_ok w;
  inv_used : forall r, ship_placed (grid w) r -> r ∈ used;
  inv_fresh : forall r s, r ∉ used -> ships w !! r = Some s ->
                hits s = 0%nat /\ (0 < ship_size s)%nat;
  inv_hits : forall r s, ship_placed (grid w) r -> ships w !! r = Some s ->
               (hits s + unattacked r (grid w))%nat = ship_size s;
  inv_count : active_ship_count w = Z.of_nat (live_count w)
}.

Inductive Op :=
| OpPlace (ship : nat) (origin : pystr) (o : Orientation)
| OpAttack (coord : pystr)
| OpReset.

Definition is_reset (op : Op) : bool :=
  match op with OpReset => true | _ => false end.

Definition exec (op : Op) (w : World) : World :=
  match op with
  | OpPlace ship origin o => fst (place_ship ship origin o w)
  | OpAttack coord => fst (receive_attack coord w)
  | OpReset => fst (reset w)
  end.

Fixpoint run_ops (ops : list Op) (w : World) : World :=
  match ops with
  | [] => w
  | op :: rest => run_ops rest (exec op w)
  end.

(** The live-ship count after each operation, with the outcome of each
    successful attack. *)
Fixpoint count_trace (ops : list Op) (w : World) : list (Z * option OutcomeState) :=
  match ops with
  | [] => []
  | op :: rest =>
      let o := match op with
               | OpAttack coord =>
                   match snd (receive_attack coord w) with
                   | inr out => Some (outcome_state out)
                   | inl _ => None
                   end
               | _ => None
               end in
      let w' := exec op w in
      (active_ship_count w', o) :: count_trace rest w'
  end.

Definition two_ship_heap : gmap nat Ship :=
  <[0%nat := Ship_destroyer]> (<[1%nat := Ship_submarine]> ∅).

(** Sink the Destroyer, then place the Submarine and sink it too. *)
Definition two_games : list Op :=
  [OpPlace 0 (py "A1") LANDSCAPE; OpAttack (py "A1"); OpAttack (py "A2");
   OpPlace 1 (py "C1") LANDSCAPE; OpAttack (py "C1"); OpAttack (py "C2");
   OpAttack (py "C3")].

(** ** [RandomAIPlayer] *)

(** [["{0}{1}".format(row, column) for row in 'ABCDEFGH'
      for column in range(1, 9)]], before [random.shuffle]. *)
Definition ai_targets : list pystr :=
  flat_map (fun row => map (fun column => [row] ++ py_str_int column) (zrange 1 8))
           (py "ABCDEFGH").

(** [self.targets.pop(0)]: [None] when [pop] raises [IndexError] on the
    empty list, otherwise the target and the list left. *)
Definition next_target (targets : list pystr) : option (pystr * list pystr) :=
  match targets with
  | [] => None
  | t :: rest => Some (t, rest)
  end.

(** Successive [receive_attack] calls on one player. *)
Fixpoint receive_attacks (coords : list pystr) : M (list Outcome) :=
  match coords with
  | [] => ret []
  | c :: t => let! o := receive_attack c in
              let! os := receive_attacks t in ret (o :: os)
  end.

(** [n] turns of the computer in the loop of [main.py]:
    [command = game.current_player.next_target()], then
    [game.take_turn(command)], that is [receive_attack] on the human player,
    whose grid no other turn changes.  The result [None] is the [IndexError]
    of [pop] on an empty target list.  (The loop of [main.py] stops at the
    first [WIN]; here the turns go on.) *)
Fixpoint computer_turns (n : nat) (targets : list pystr)
  : M (option (list Outcome * list pystr)) :=
  match n with
  | O => ret (Some ([], targets))
  | S n' =>
      match next_target targets with
      | None => ret None
      | Some (command, rest) =>
          let! outcome := receive_attack command in
          let! r := computer_turns n' rest in
          ret (option_map (fun '(os, ts) => (outcome :: os, ts)) r)
      end
  end.

(** ** The views of [main.py] *)

Definition is_hit (self : GridSpace) : bool := String.eqb (gs_state self) "hit".
Definition is_miss (self : GridSpace) : bool := String.eqb (gs_state self) "miss".

(** The errors of the view code: an engine exception, and the [KeyError]
    and [IndexError] of subscripts. *)
Inductive ViewErr := ViewExc (e : Exc) | KeyError | IndexError.

Definition vbind {A B} (r : ViewErr + A) (k : A -> ViewErr + B) : ViewErr + B :=
  match r with inl e => inl e | inr a => k a end.

Definition vlift {A} (r : Exc + A) : ViewErr + A :=
  match r with inl e => inl (ViewExc e) | inr a => inr a end.

(** The position the subscript [i] denotes in a Python list of length [n]:
    a negative subscript counts from the end. *)
Definition py_index (n : nat) (i : Z) : option nat :=
  if (0 <=? i) && (i <? Z.of_nat n) then Some (Z.to_nat i)
  else if (- Z.of_nat n <=? i) && (i <? 0) then Some (Z.to_nat (Z.of_nat n + i))
  else None.

(** [l[i]] *)
Definition py_getitem {A} (l : list A) (i : Z) : ViewErr + A :=
  match py_index (length l) i with
  | Some j => match l !! j with Some a => inr a | None => inl IndexError end
  | None => inl IndexError
  end.

(** [l[i] = a] *)
Definition py_setitem {A} (l : list A) (i : Z) (a : A) : ViewErr + list A :=
  match py_index (length l) i with
  | Some j => inr (<[j := a]> l)
  | None => inl IndexError
  end.

(** [view[x][y] = v]: [view[x]] is a list object of its own (the rows are
    built by a comprehension), updated in place. *)
Definition set_view (view : list (list pystr)) (x y : Z) (v : pystr)
  : ViewErr + list (list pystr) :=
  vbind (py_getitem view x) (fun row =>
  vbind (py_setitem row y v) (fun row' => py_setitem view x row')).

(** [BattleGrid.grid_dimension] *)
Definition grid_dimension : Z * Z := (8, 8).

(** [[['_'] * grid_dimension[0] for _ in range(grid_dimension[1])]] *)
Definition blank_view (dim : Z * Z) : list (list pystr) :=
  repeat (repeat (py "_") (Z.to_nat dim.1)) (Z.to_nat dim.2).

(** The loop of [create_target_view] over [player.battle_grid.grid.keys()]:
    a dict iterates in insertion order, which the [gmap] does not keep, so
    the order is the argument [keys]. *)
Fixpoint create_target_view_loop (g : gmap pystr GridSpace) (keys : list pystr)
  (view : list (list pystr)) : ViewErr + list (list pystr) :=
  match keys with
  | [] => inr view
  | coord :: rest =>
      match g !! coord with
      | None => inl KeyError
      | Some grid_space =>
          vbind (vlift (split_coord coord)) (fun coord_tuple =>
          vbind (vlift (coord_tuple_to_index_tuple coord_tuple)) (fun '(x, y) =>
          vbind (if is_miss grid_space then set_view view x y (py "O") else inr view)
                (fun view =>
          vbind (if is_hit grid_space then set_view view x y (py "X") else inr view)
                (fun view =>
          create_target_view_loop g rest view))))
      end
  end.

Definition create_target_view (player : World) (keys : list pystr)
  : ViewErr + list (list pystr) :=
  create_target_view_loop (grid player) keys (blank_view grid_dimension).

(** The loop of [create_fleet_view]; [grid_space.ship.code] reads the ship
    object from the heap. *)
Fixpoint create_fleet_view_loop (w : World) (keys : list pystr)
  (view : list (list pystr)) : ViewErr + list (list pystr) :=
  match keys with
  | [] => inr view
  | coord :: rest =>
      match grid w !! coord with
      | None => inl KeyError
      | Some grid_space =>
          vbind (vlift (split_coord coord)) (fun coord_tuple =>
          vbind (vlift (coord_tuple_to_index_tuple coord_tuple)) (fun '(x, y) =>
          vbind (if is_miss grid_space then set_view view x y (py "O")
                 else if is_hit grid_space then set_view view x y (py "X")
                 else match gs_ship grid_space with
                      | Some r =>
                          match ships w !! r with
                          | Some s => set_view view x y (py (code s))
                          | None => inl (ViewExc AttributeError)
                          end
                      | None => inr view
                      end)
                (fun view => create_fleet_view_loop w rest view)))
      end
  end.

Definition create_fleet_view (player : World) (keys : list pystr)
  : ViewErr + list (list pystr) :=
  create_fleet_view_loop player keys (blank_view grid_dimension).

(** [sep.join(parts)] *)
Definition py_join (sep : pystr) (parts : list pystr) : pystr :=
  match parts with
  | [] => []
  | p :: rest => p ++ flat_map (fun q => sep ++ q) rest
  end.

Definition convert_index_to_label (index : Z) : Exc + pystr := py_chr (index + 65).

Definition grid_horizontal_edge : pystr := py "  +--------------------------+".

(** The [for row in view] loop of [print_view], from [row_number]. *)
Fixpoint print_rows (view : list (list pystr)) (row_number : Z) : Exc + list pystr :=
  match view with
  | [] => inr []
  | row :: rest =>
      sbind (convert_index_to_label row_number) (fun label =>
      let row_text := label ++ py " |  " ++ py_join (py "  ") row ++ py "  |" in
      sbind (print_rows rest (row_number + 1)) (fun lines => inr (row_text :: lines)))
  end.

Definition print_view (view : list (list pystr)) (dim : Z * Z) : Exc + list pystr :=
  let '(x, y) := dim in
  let column_headers :=
    py_join (py "  ") (map (fun i => py_str_int (i + 1)) (zrange 0 (Z.to_nat y))) in
  sbind (print_rows view 0) (fun rows =>
  inr ([py "     " ++ column_headers ++ py "   "; grid_horizontal_edge] ++ rows ++
       [grid_horizontal_edge])).

(** The lines [render_views] prints after its blank line: the fleet view of
    the human player beside the target view of the computer. *)
Definition render_views (human computer : World) (human_keys computer_keys : list pystr)
  : ViewErr + list pystr :=
  vbind (create_fleet_view human human_keys) (fun fv =>
  vbind (vlift (print_view fv grid_dimension)) (fun fleet_view =>
  vbind (create_target_view computer computer_keys) (fun tv =>
  vbind (vlift (print_view tv grid_dimension)) (fun target_view =>
  inr (map (fun '(a, b) => a ++ py "          " ++ b) (zip fleet_view target_view)))))).

(** ** Auxiliary definitions for the views *)

(** [keys] lists the keys of the dict [g], each once, in some order. *)
Definition dict_keys (g : gmap pystr GridSpace) (keys : list pystr) : Prop :=
  NoDup keys /\ forall k, k ∈ keys <-> is_Some (g !! k).

(** Eight rows of eight cells. *)
Definition view_dims (view : list (list pystr)) : Prop :=
  length view = 8%nat /\ Forall (fun row => length row = 8%nat) view.

(** Every cell is one character. *)
Definition cells_single (view : list (list pystr)) : Prop :=
  Forall (Forall (fun c => length c = 1%nat)) view.

Definition view_at (view : list (list pystr)) (i j : nat) : option pystr :=
  view !! i ≫= fun row => row !! j.

(** The cell of an eight-by-eight view on which the loops draw [coord]. *)
Definition view_pos (coord : pystr) : option (nat * nat) :=
  match decode_coord coord with
  | inr (x, y) =>
      match py_index 8 x, py_index 8 y with
      | Some i, Some j => Some (i, j)
      | _, _ => None
      end
  | inl _ => None
  end.

(** The shape shared by the two view loops: [mark] tells what, if anything,
    is written for a cell. *)
Fixpoint view_loop (mark : GridSpace -> ViewErr + option pystr) (g : gmap pystr GridSpace)
  (keys : list pystr) (view : list (list pystr)) : ViewErr + list (list pystr) :=
  match keys with
  | [] => inr view
  | coord :: rest =>
      match g !! coord with
      | None => inl KeyError
      | Some grid_space =>
          vbind (vlift (split_coord coord)) (fun coord_tuple =>
          vbind (vlift (coord_tuple_to_index_tuple coord_tuple)) (fun '(x, y) =>
          vbind (mark grid_space) (fun m =>
          vbind (match m with Some s => set_view view x y s | None => inr view end)
                (fun view => view_loop mark g rest view))))
      end
  end.

Definition target_mark (grid_space : GridSpace) : ViewErr + option pystr :=
  inr (if is_miss grid_space then Some (py "O")
       else if is_hit grid_space then Some (py "X") else None).

Definition fleet_mark (w : World) (grid_space : GridSpace) : ViewErr + option pystr :=
  if is_miss grid_space then inr (Some (py "O"))
  else if is_hit grid_space then inr (Some (py "X"))
  else match gs_ship grid_space with
       | Some r => match ships w !! r with
                   | Some s => inr (Some (py (code s)))
                   | None => inl (ViewExc AttributeError)
                   end
       | None => inr None
       end.

Example test_calculate_coords_landscape :
  calculate_coords (py "A", py "4") LANDSCAPE 3 = inr [py "A4"; py "A5"; py "A6"].
Proof. reflexivity. Qed.
Example test_calculate_coords_portrait :
  calculate_coords (py "A", py "4") PORTRAIT 3 = inr [py "A4"; py "B4"; py "C4"].
Proof. reflexivity. Qed.
Example test_coord_tuple_to_index_tuple_on_ABC7 :
  coord_tuple_to_index_tuple (py "ABC", py "7") = inr (17, 6).
Proof. reflexivity. Qed.
Example test_valid_coords :
  map valid_coord [py "A7"; py "AA7"; py "AA07"; py ""; py "7A"; py "7"; py "A"]
  = [true; false; false; false; false; false; false].
Proof. reflexivity. Qed.
Example test_game_over :
  snd (run_attacks ["A1"; "A2"; "A3"; "D7"; "C7"]%string test_world)
  = inr [Outcome_hit Ship_submarine; Outcome_hit Ship_submarine;
         Outcome_sunk Ship_submarine; Outcome_hit Ship_destroyer;
         Outcome_win Ship_destroyer].
Proof. vm_compute. reflexivity. Qed.
Example test_already_attacked :
  snd (run_attacks ["A1"; "A1"]%string test_world) = inl (AlreadyAttacked (py "A1")).
Proof. vm_compute. reflexivity. Qed.
Example test_place_landscape_ship_off_board :
  snd (place_ship 0 (py "A8") LANDSCAPE (fresh_world {[0%nat := Ship_carrier]}))
  = inl (InvalidCoord (py "A9")).
Proof. vm_compute. reflexivity. Qed.

(** The first pass of the layout loop over [draw_order]. *)

Example draw_order_first_pass :
  snd (layout_attempts 129 draw_rng 0 [] [0; 1; 2]%nat (fresh_world long_fleet_heap))
  = inr (Some (128%nat, draw_order, [2%nat])).
Proof. vm_compute. reflexivity. Qed.

(** ** [str] of an integer *)

Lemma dec_digits_small (f : nat) (n : Z) (acc : pystr) :
  0 <= n < 10 -> dec_digits (S f) n acc = (48 + n) :: acc.
Proof. intros Hn. simpl. destruct (Z.ltb_spec n 10); [done | lia]. Qed.

Lemma dec_digits_shape (f : nat) : forall (n : Z) (acc : pystr),
  0 <= n -> (0 < f)%nat ->
  exists p, p <> [] /\ Forall is_digit p /\ dec_digits f n acc = p ++ acc.
Proof.
  induction f as [|f IH]; intros n acc Hn Hf; [lia|].
  simpl. destruct (Z.ltb_spec n 10).
  - exists [48 + n]. split; [done|]. split; [|done].
    constructor; [unfold is_digit; lia | constructor].
  - destruct f as [|f'].
    + simpl. exists [48 + n mod 10]. split; [done|]. split; [|done].
      constructor; [unfold is_digit; pose proof (Z.mod_pos_bound n 10); lia | constructor].
    + destruct (IH (n / 10) ((48 + n mod 10) :: acc)) as (p & Hp & Hd & ->);
        [apply Z.div_pos; lia | lia |].
      exists (p ++ [48 + n mod 10]). split; [destruct p; simpl; congruence|].
      split; [|by rewrite <- app_assoc].
      apply Forall_app. split; [done|].
      constructor; [unfold is_digit; pose proof (Z.mod_pos_bound n 10); lia | constructor].
Qed.

(** A one-digit [str] is the digit; any other [str] has a digit in second
    position. *)
Lemma py_str_int_shape (z : Z) :
  (0 <= z < 10 /\ py_str_int z = [48 + z]) \/
  (exists a b t, py_str_int z = a :: b :: t /\ is_digit b).
Proof.
  unfold py_str_int. destruct (Z.ltb_spec z 0).
  - right. destruct (dec_digits_shape (S (Z.to_nat (- z))) (- z) []) as (p & Hp & Hd & ->);
      [lia | lia |].
    destruct p as [|b t]; [done|]. inversion Hd; subst.
    exists 45, b, (t ++ []). done.
  - destruct (Z.ltb_spec z 10).
    + left. split; [lia|]. by apply dec_digits_small.
    + right. simpl. destruct (Z.ltb_spec z 10); [lia|].
      destruct (dec_digits_shape (Z.to_nat z) (z / 10) [48 + z mod 10]) as (p & Hp & Hd & ->);
        [apply Z.div_pos; lia | lia |].
      destruct p as [|a [|b t]]; [done| |].
      * exists a, (48 + z mod 10), [].
        split; [done|]. unfold is_digit. pose proof (Z.mod_pos_bound z 10); lia.
      * inversion Hd as [|? ? ? Hd']; subst. inversion Hd'; subst.
        exists a, b, (t ++ [48 + z mod 10]). done.
Qed.

(** A valid coordinate made of a letter and [str(z)]: [z] is one digit. *)
Lemma valid_letter_str (a z : Z) :
  valid_coord (a :: py_str_int z) = true ->
  is_A_H a = true /\ 0 <= z <= 8 /\ py_str_int z = [48 + z].
Proof.
  destruct (py_str_int_shape z) as [[Hz ->] | (b & c & t & -> & Hc)];
    unfold valid_coord, coord_regex_search.
  - destruct (is_A_H a) eqn:Ha; simpl; [|done].
    unfold is_0_8. intros H. repeat split; try done.
    + lia.
    + destruct (Z.leb_spec 48 (48 + z)), (Z.leb_spec (48 + z) 56); simpl in H; try done; lia.
  - unfold is_digit in Hc.
    destruct t as [|d [|e t]].
    + destruct (is_A_H a && is_0_8 b && (c =? 10)) eqn:E; [|done].
      apply andb_prop in E as [_ E]. apply Z.eqb_eq in E. lia.
    + done.
    + done.
Qed.

(** ** Coordinates computed by [_calculate_coords] *)

Lemma mapE_Forall2 {A B} (f : A -> Exc + B) (l : list A) (ys : list B) :
  mapE f l = inr ys -> Forall2 (fun x y => f x = inr y) l ys.
Proof.
  revert ys. induction l as [|x t IH]; intros ys H; simpl in H.
  - injection H as <-. constructor.
  - destruct (f x) as [e|y] eqn:Hf; simpl in H; [done|].
    destruct (mapE f t) as [e|ys'] eqn:Ht; simpl in H; [done|].
    injection H as <-. constructor; [done|]. by apply IH.
Qed.

Lemma Forall2_elem_r {A B} (R : A -> B -> Prop) (l : list A) (ys : list B) (y : B) :
  Forall2 R l ys -> y ∈ ys -> exists x, x ∈ l /\ R x y.
Proof.
  induction 1 as [|x y' l ys Hxy Hrest IH]; intros Hy; [set_solver|].
  apply elem_of_cons in Hy as [->|Hy].
  - exists x. split; [set_solver | done].
  - destruct (IH Hy) as (x' & Hx' & Hr). exists x'. split; [set_solver | done].
Qed.

Lemma Forall2_with_elem {A B} (R : A -> B -> Prop) (l : list A) (ys : list B) (Y : list B) :
  Forall2 R l ys -> ys ⊆ Y -> Forall2 (fun x y => R x y /\ y ∈ Y) l ys.
Proof.
  induction 1; intros HY; constructor; [split; [done | set_solver] |].
  apply IHForall2. set_solver.
Qed.

Lemma Forall2_NoDup {A B} (R : A -> B -> Prop) (l : list A) (ys : list B) :
  Forall2 R l ys -> NoDup l ->
  (forall x1 x2 y, x1 ∈ l -> x2 ∈ l -> R x1 y -> R x2 y -> x1 = x2) ->
  NoDup ys.
Proof.
  induction 1 as [|x y l ys Hxy Hrest IH]; intros Hnd Hinj; [constructor|].
  apply NoDup_cons in Hnd as [Hx Hnd]. constructor.
  - intros Hy. apply (Forall2_elem_r _ _ _ _ Hrest) in Hy as (x' & Hx' & Hr).
    assert (x = x') as <- by (apply (Hinj x x' y); set_solver).
    done.
  - apply IH; [done|]. intros x1 x2 y' H1 H2. apply Hinj; set_solver.
Qed.

Lemma zrange_NoDup (a : Z) (n : nat) : NoDup (zrange a n).
Proof.
  unfold zrange. apply NoDup_fmap_2; [intros i j; lia|]. apply NoDup_seq.
Qed.

Lemma encode_index_ok (x y : Z) (s : pystr) :
  encode_index (x, y) = inr s -> s = (x + 65) :: py_str_int (y + 1).
Proof.
  unfold encode_index, index_tuple_to_coord_tuple, py_chr.
  destruct ((0 <=? x + 65) && (x + 65 <? 1114112)); simpl; [|done].
  by intros [= <-].
Qed.

(** Once every computed cell passes [valid_coord], the cells are distinct. *)
Lemma calculate_coords_NoDup (ct : pystr * pystr) (o : Orientation) (n : nat)
  (coords : list pystr) :
  calculate_coords ct o n = inr coords -> Forall (fun c => valid_coord c = true) coords ->
  NoDup coords.
Proof.
  unfold calculate_coords.
  destruct (coord_tuple_to_index_tuple ct) as [e|[row col]]; simpl; [done|].
  intros Hm Hv.
  assert (Hv' : forall c, c ∈ coords -> valid_coord c = true)
    by (intros c Hc; rewrite Forall_forall in Hv; by apply Hv).
  destruct o; apply mapE_Forall2 in Hm.
  - eapply (Forall2_NoDup (fun x y => encode_index (x, col) = inr y /\ y ∈ coords)).
    + by apply Forall2_with_elem.
    + apply zrange_NoDup.
    + intros x1 x2 y _ _ [H1 _] [H2 _].
      apply encode_index_ok in H1, H2. rewrite H1 in H2. injection H2. lia.
  - eapply (Forall2_NoDup (fun x y => encode_index (row, x) = inr y /\ y ∈ coords)).
    + by apply Forall2_with_elem.
    + apply zrange_NoDup.
    + intros x1 x2 y _ _ [H1 Hy] [H2 _].
      apply encode_index_ok in H1, H2.
      pose proof (Hv' y Hy) as Hval. rewrite H1 in Hval.
      apply valid_letter_str in Hval as (_ & _ & Hs1).
      rewrite H1 in H2. injection H2 as H2. rewrite Hs1 in H2.
      destruct (valid_letter_str (row + 65) (x2 + 1)) as (_ & _ & Hs2).
      { rewrite <- H2, <- Hs1, <- H1. by apply Hv'. }
      rewrite Hs2 in H2. injection H2. lia.
Qed.

(** ** [place_ship] as a function of the grid *)

Lemma validate_coords_eq (coords : list pystr) (w : World) :
  validate_coords coords w =
  (w, match first_bad_coord (grid w) coords with Some e => inl e | None => inr tt end).
Proof.
  induction coords as [|c t IH]; [done|]. simpl.
  destruct (valid_coord c); simpl; [|done].
  unfold bind, gets. destruct (grid w !! c); done.
Qed.

Lemma first_bad_coord_None (g : gmap pystr GridSpace) (coords : list pystr) :
  first_bad_coord g coords = None ->
  Forall (fun c => valid_coord c = true) coords /\ Forall (fun c => g !! c = None) coords.
Proof.
  induction coords as [|c t IH]; simpl; [done|].
  destruct (valid_coord c) eqn:Hv; simpl; [|done].
  destruct (g !! c) eqn:Hg; [done|]. intros H. destruct (IH H).
  split; by constructor.
Qed.

Lemma set_grid_spaces_ok (coords : list pystr) (ship : nat) (w : World) :
  NoDup coords -> Forall (fun c => valid_coord c = true) coords ->
  Forall (fun c => grid w !! c = None) coords ->
  set_grid_spaces coords ship w = (with_grid (insert_cells ship coords (grid w)) w, inr tt).
Proof.
  revert w. induction coords as [|c t IH]; intros w Hnd Hv Hg.
  - destruct w; done.
  - apply NoDup_cons in Hnd as [Hc Hnd]. inversion Hv as [|? ? Hvc Hvt]; subst.
    inversion Hg as [|? ? Hgc Hgt]; subst.
    simpl. unfold bind at 1, set_grid_space. rewrite Hvc. simpl.
    unfold bind, gets, modify. rewrite Hgc. simpl.
    rewrite IH; [done | done | done |].
    apply Forall_forall. intros c' Hc'. simpl.
    rewrite lookup_insert_ne; [|set_solver].
    rewrite Forall_forall in Hgt. by apply Hgt.
Qed.

Lemma place_ship_eq (ship : nat) (origin_coord : pystr) (orientation : Orientation)
  (w : World) :
  place_ship ship origin_coord orientation w =
  if negb (valid_coord origin_coord) then (w, inl (InvalidCoord origin_coord)) else
  match split_coord origin_coord with
  | inl e => (w, inl e)
  | inr ct =>
    match ships w !! ship with
    | None => (w, inl AttributeError)
    | Some s =>
      match calculate_coords ct orientation (ship_size s) with
      | inl e => (w, inl e)
      | inr coords =>
        match first_bad_coord (grid w) coords with
        | Some e => (w, inl e)
        | None => (mkWorld (insert_cells ship coords (grid w))
                           (active_ship_count w + 1) (ships w), inr tt)
        end
      end
    end
  end.
Proof.
  unfold place_ship. destruct (valid_coord origin_coord); simpl; [|done].
  unfold bind at 1, lift. destruct (split_coord origin_coord) as [e|ct]; [done|].
  unfold bind at 1, load_ship. destruct (ships w !! ship) as [s|]; [|done].
  unfold bind at 1. destruct (calculate_coords ct orientation (ship_size s)) as [e|coords] eqn:Hc;
    [done|].
  unfold bind at 1. rewrite validate_coords_eq.
  destruct (first_bad_coord (grid w) coords) as [e|] eqn:Hb; [done|].
  apply first_bad_coord_None in Hb as [Hv Hg].
  unfold bind. rewrite set_grid_spaces_ok; [| by eapply calculate_coords_NoDup | done | done].
  done.
Qed.

Lemma insert_cells_lookup (ship : nat) (coords : list pystr) (g : gmap pystr GridSpace)
  (k : pystr) :
  insert_cells ship coords g !! k =
  if decide (k ∈ coords) then Some (new_cell ship k) else g !! k.
Proof.
  revert g. induction coords as [|c t IH]; intros g.
  - destruct (decide (k ∈ [])); [set_solver | done].
  - change (insert_cells ship (c :: t) g) with (insert_cells ship t (<[c := new_cell ship c]> g)).
    rewrite IH.
    destruct (decide (k ∈ t)), (decide (k ∈ c :: t)); try set_solver.
    + rewrite lookup_insert.
      destruct (decide (c = k)) as [->|]; [done | set_solver].
    + rewrite lookup_insert_ne; [done | set_solver].
Qed.

Lemma first_bad_coord_split (g : gmap pystr GridSpace) (pre post : list pystr) (c : pystr) :
  Forall (fun c' => valid_coord c' = true /\ g !! c' = None) pre ->
  first_bad_coord g (pre ++ c :: post) = first_bad_coord g (c :: post).
Proof.
  induction 1 as [|c' pre [Hv Hg] _ IH]; [done|]. simpl. by rewrite Hv, Hg.
Qed.

Lemma zrange_lookup (a : Z) (n i : nat) :
  (i < n)%nat -> zrange a n !! i = Some (a + Z.of_nat i).
Proof.
  intros Hi. unfold zrange. rewrite list_lookup_fmap, lookup_seq_lt; done.
Qed.

Lemma calculate_coords_ok (ct : pystr * pystr) (o : Orientation) (n : nat)
  (coords : list pystr) :
  calculate_coords ct o n = inr coords ->
  exists row col, coord_tuple_to_index_tuple ct = inr (row, col) /\
    length coords = n /\
    forall i, (i < n)%nat ->
      coords !! i = Some (match o with
                          | PORTRAIT => (row + Z.of_nat i + 65) :: py_str_int (col + 1)
                          | LANDSCAPE => (row + 65) :: py_str_int (col + Z.of_nat i + 1)
                          end).
Proof.
  unfold calculate_coords.
  destruct (coord_tuple_to_index_tuple ct) as [e|[row col]]; simpl; [done|].
  intros Hm. exists row, col. split; [done|].
  destruct o; apply mapE_Forall2 in Hm; split;
    try (apply Forall2_length in Hm; rewrite <- Hm; unfold zrange; by rewrite length_fmap, length_seq).
  - intros i Hi. pose proof (zrange_lookup row _ _ Hi) as Hz.
    destruct (Forall2_lookup_l _ _ _ _ _ Hm Hz) as (y & Hy & He).
    rewrite Hy. apply encode_index_ok in He. by rewrite He.
  - intros i Hi. pose proof (zrange_lookup col _ _ Hi) as Hz.
    destruct (Forall2_lookup_l _ _ _ _ _ Hm Hz) as (y & Hy & He).
    rewrite Hy. apply encode_index_ok in He. by rewrite He.
Qed.

(** ** Claims about [place_ship] *)

(** Claim C2 (counterexample): with the Destroyer at A8 portrait (A8, B8),
    a Cruiser placed landscape at A7 computes the cells A7, A8, A9; A9 is
    off the board, yet the call fails with [AlreadyAssigned A8], not with
    [InvalidCoord]. *)
Lemma place_ship_conflict_before_off_board :
  let w0 := fresh_world (<[0%nat := Ship_cruiser]> {[1%nat := Ship_destroyer]}) in
  let w1 := fst (place_ship 1 (py "A8") PORTRAIT w0) in
  calculate_coords (py "A", py "7") LANDSCAPE 3 = inr [py "A7"; py "A8"; py "A9"] /\
  valid_coord (py "A9") = false /\
  snd (place_ship 0 (py "A7") LANDSCAPE w1) = inl (AlreadyAssigned (py "A8")).
Proof. vm_compute. repeat split; reflexivity. Qed.

(** Claim C2 (amended): an origin that fails the validity test raises
    [InvalidCoord] naming it; otherwise the computed cells are checked in
    order and the call fails at the first cell that fails the validity test
    ([InvalidCoord] naming it) or is already in the grid ([AlreadyAssigned]
    naming it); and every failing call leaves the grid, the live-ship count
    and the ships exactly as they were. *)
Theorem place_ship_first_bad_cell_unmutated (ship : nat) (origin : pystr)
  (orientation : Orientation) (w : World) :
  (forall e, snd (place_ship ship origin orientation w) = inl e ->
             fst (place_ship ship origin orientation w) = w) /\
  (valid_coord origin = false ->
   place_ship ship origin orientation w = (w, inl (InvalidCoord origin))) /\
  (forall s coords pre c post,
     ships w !! ship = Some s -> valid_coord origin = true ->
     sbind (split_coord origin) (fun ct => calculate_coords ct orientation (ship_size s))
       = inr coords ->
     coords = pre ++ c :: post ->
     Forall (fun c' => valid_coord c' = true /\ grid w !! c' = None) pre ->
     (valid_coord c = false ->
      place_ship ship origin orientation w = (w, inl (InvalidCoord c))) /\
     (valid_coord c = true -> is_Some (grid w !! c) ->
      place_ship ship origin orientation w = (w, inl (AlreadyAssigned c)))).
Proof.
  split; [|split].
  - intros e. rewrite place_ship_eq.
    destruct (valid_coord origin); simpl; [|done].
    destruct (split_coord origin); [done|].
    destruct (ships w !! ship); [|done].
    destruct (calculate_coords _ _ _); [done|].
    destruct (first_bad_coord _ _); done.
  - intros Hv. rewrite place_ship_eq, Hv. done.
  - intros s coords pre c post Hs Hv Hc -> Hpre.
    rewrite place_ship_eq, Hv, Hs. simpl.
    destruct (split_coord origin) as [e|ct]; simpl in Hc; [done|]. rewrite Hc.
    rewrite first_bad_coord_split by done. simpl.
    split.
    + intros Hc'. by rewrite Hc'.
    + intros Hc' [x Hx]. by rewrite Hc', Hx.
Qed.

Lemma place_ship_first_bad_cell_unmutated_witness :
  let w0 := fresh_world (<[0%nat := Ship_cruiser]> {[1%nat := Ship_destroyer]}) in
  let w1 := fst (place_ship 1 (py "A8") PORTRAIT w0) in
  place_ship 0 (py "A7") LANDSCAPE w1 = (w1, inl (AlreadyAssigned (py "A8"))).
Proof.
  intros w0 w1.
  destruct (place_ship_first_bad_cell_unmutated 0 (py "A7") LANDSCAPE w1) as (_ & _ & H).
  refine (proj2 (H Ship_cruiser [py "A7"; py "A8"; py "A9"] [py "A7"] (py "A8") [py "A9"]
                   _ _ _ _ _) _ _).
  - vm_compute. reflexivity.
  - reflexivity.
  - vm_compute. reflexivity.
  - reflexivity.
  - constructor; [split; [reflexivity | vm_compute; reflexivity] | constructor].
  - reflexivity.
  - vm_compute. eexists. reflexivity.
Defined.

(** Claim C4: a successful [place_ship] of a ship of size [N] assigns
    exactly [N] distinct, previously empty cells to that ship: cell [i] is
    in row [row + i] of the origin's column (portrait) or in column
    [col + i] of the origin's row (landscape), where [(row, col)] is the
    origin's zero-based index; no other cell changes, the live-ship count
    grows by one and the ships are untouched. *)
Theorem place_ship_success_cells (ship : nat) (origin : pystr)
  (orientation : Orientation) (w w' : World) :
  place_ship ship origin orientation w = (w', inr tt) ->
  exists s row col coords,
    ships w !! ship = Some s /\
    sbind (split_coord origin) coord_tuple_to_index_tuple = inr (row, col) /\
    length coords = ship_size s /\ NoDup coords /\
    (forall i, (i < ship_size s)%nat ->
       coords !! i = Some (match orientation with
                           | PORTRAIT => (row + Z.of_nat i + 65) :: py_str_int (col + 1)
                           | LANDSCAPE => (row + 65) :: py_str_int (col + Z.of_nat i + 1)
                           end)) /\
    (forall c, c ∈ coords -> grid w !! c = None) /\
    (forall k, grid w' !! k =
               if decide (k ∈ coords) then Some (new_cell ship k) else grid w !! k) /\
    active_ship_count w' = active_ship_count w + 1 /\ ships w' = ships w.
Proof.
  rewrite place_ship_eq.
  destruct (valid_coord origin); simpl; [|done].
  destruct (split_coord origin) as [e|ct]; [done|]. simpl.
  destruct (ships w !! ship) as [s|] eqn:Hs; [|done].
  destruct (calculate_coords ct orientation (ship_size s)) as [e|coords] eqn:Hc; [done|].
  destruct (first_bad_coord (grid w) coords) eqn:Hb; [done|].
  intros [= <-].
  destruct (calculate_coords_ok _ _ _ _ Hc) as (row & col & Hrc & Hlen & Hat).
  apply first_bad_coord_None in Hb as [Hv Hg].
  exists s, row, col, coords. repeat split; try done.
  - by eapply calculate_coords_NoDup.
  - intros c Hc'. rewrite Forall_forall in Hg. by apply Hg.
  - intros k. simpl. apply insert_cells_lookup.
Qed.

Lemma place_ship_success_cells_witness :
  exists w', place_ship 0 (py "C5") PORTRAIT (fresh_world {[0%nat := Ship_carrier]}) = (w', inr tt) /\
  exists s row col coords,
    ships (fresh_world {[0%nat := Ship_carrier]}) !! 0%nat = Some s /\
    sbind (split_coord (py "C5")) coord_tuple_to_index_tuple = inr (row, col) /\
    length coords = ship_size s /\ NoDup coords /\
    (forall i, (i < ship_size s)%nat ->
       coords !! i = Some ((row + Z.of_nat i + 65) :: py_str_int (col + 1))) /\
    (forall c, c ∈ coords -> grid (fresh_world {[0%nat := Ship_carrier]}) !! c = None) /\
    (forall k, grid w' !! k = if decide (k ∈ coords) then Some (new_cell 0 k)
                              else grid (fresh_world {[0%nat := Ship_carrier]}) !! k) /\
    active_ship_count w' = active_ship_count (fresh_world {[0%nat := Ship_carrier]}) + 1 /\
    ships w' = ships (fresh_world {[0%nat := Ship_carrier]}).
Proof.
  eexists. split.
  - vm_compute. reflexivity.
  - apply (place_ship_success_cells 0 (py "C5") PORTRAIT). vm_compute. reflexivity.
Defined.

(** The spec's example: a Carrier placed portrait at C5 occupies exactly
    C5, D5, E5, F5 and G5. *)
Example carrier_portrait_C5 :
  let w' := fst (place_ship 0 (py "C5") PORTRAIT (fresh_world {[0%nat := Ship_carrier]})) in
  grid w' = insert_cells 0 [py "C5"; py "D5"; py "E5"; py "F5"; py "G5"] ∅ /\
  active_ship_count w' = 1.
Proof. vm_compute. split; reflexivity. Qed.

(** ** Coordinates *)

(** Claim C3 (code bug): the regex's digit class is [0-8] and its [$]
    accepts a trailing newline, so "A0" (decoded column -1) and "A1\n" pass
    the validity test. *)
Lemma valid_coord_accepts_A0 :
  valid_coord (py "A0") = true /\ spec_valid_coord (py "A0") = false /\
  decode_coord (py "A0") = inr (0, -1) /\
  valid_coord [65; 49; 10] = true /\ spec_valid_coord [65; 49; 10] = false.
Proof. vm_compute. repeat split; reflexivity. Qed.

(** Claim C8: for every valid coordinate [c] (one letter A-H, one digit
    1-8), decoding [c] to its index pair and re-encoding the pair with
    [index_tuple_to_coord_tuple] and [_tuple_to_coord] gives [c] back. *)
Theorem coord_round_trip (c : pystr) :
  spec_valid_coord c = true -> sbind (decode_coord c) encode_index = inr c.
Proof.
  destruct c as [|l [|d [|x t]]]; simpl; try done.
  intros H. apply andb_prop in H as [H Hd2]. apply andb_prop in H as [Hl Hd1].
  unfold is_A_H in Hl. apply andb_prop in Hl as [Hl1 Hl2].
  apply Z.leb_le in Hl1, Hl2, Hd1, Hd2.
  unfold decode_coord, split_coord, coord_regex_search, is_A_H, is_0_8.
  rewrite (proj2 (Z.leb_le 65 l) Hl1), (proj2 (Z.leb_le l 72) Hl2).
  rewrite (proj2 (Z.leb_le 48 d) ltac:(lia)), (proj2 (Z.leb_le d 56) Hd2). simpl.
  unfold coord_tuple_to_index_tuple, py_int. simpl.
  destruct (Z.eqb_spec d 45); [lia|]. destruct (Z.eqb_spec d 43); [lia|].
  unfold digit_value. rewrite (proj2 (Z.leb_le 48 d) ltac:(lia)), (proj2 (Z.leb_le d 57) ltac:(lia)).
  simpl. unfold encode_index, index_tuple_to_coord_tuple, py_chr, tuple_to_coord.
  replace ((l - 64) * 3 ^ Z.of_nat 0 + 0 - 1 + 65) with l by (simpl; lia).
  rewrite (proj2 (Z.leb_le 0 l) ltac:(lia)), (proj2 (Z.ltb_lt l 1114112) ltac:(lia)). simpl.
  unfold py_str_int. replace (0 * 10 + (d - 48) - 1 + 1) with (d - 48) by lia.
  destruct (Z.ltb_spec (d - 48) 0); [lia|].
  rewrite dec_digits_small by lia. do 3 f_equal. lia.
Qed.

Lemma coord_round_trip_witness :
  spec_valid_coord (py "H8") = true /\ sbind (decode_coord (py "H8")) encode_index = inr (py "H8").
Proof. split; [reflexivity | apply coord_round_trip; reflexivity]. Defined.

(** ** Claims about attacks *)

(** Claim C1: attacking an unattacked cell that holds ship [r] marks the
    cell ["hit"] and adds one to the ship's hit counter; if the counter now
    reaches the ship's size the live-ship count drops by one and the outcome
    is [win] when the count is then zero and [sunk] otherwise, both naming
    the ship; if not, the count is unchanged and the outcome is [hit] naming
    the ship. *)
Theorem attack_occupied_unattacked (w : World) (k : pystr) (c : GridSpace)
  (r : nat) (s : Ship) :
  grid w !! k = Some c -> gs_ship c = Some r -> gs_state c = ""%string ->
  gs_grid c = OwnerBattleGrid -> ships w !! r = Some s ->
  let g' := <[k := mkGridSpace (gs_grid c) (gs_coord c) (Some r) "hit"]> (grid w) in
  let h' := <[r := mkShip (name s) (ship_size s) (S (hits s)) (code s)]> (ships w) in
  attack k c w =
  if (ship_size s <=? S (hits s))%nat then
    (mkWorld g' (active_ship_count w - 1) h',
     inr (mkOutcome (if active_ship_count w - 1 =? 0 then WIN else SUNK) (Some (name s))))
  else (mkWorld g' (active_ship_count w) h', inr (mkOutcome HIT (Some (name s)))).
Proof.
  intros Hk Hr Hst Hg Hs g' h'.
  destruct c as [own coord sh st]; simpl in *; subst.
  unfold attack, already_attacked. simpl.
  unfold hit_space, bind, modify, load_ship, store_ship, gets, ret. simpl.
  rewrite Hs. simpl. rewrite lookup_insert_eq. simpl.
  unfold is_sunk. simpl.
  destruct (ship_size s <=? S (hits s))%nat; simpl; [|done].
  destruct (active_ship_count w - 1 =? 0); done.
Qed.

Lemma attack_occupied_unattacked_witness :
  let w := test_world in
  exists c s, grid w !! py "A2" = Some c /\ gs_ship c = Some 0%nat /\
  gs_state c = ""%string /\ gs_grid c = OwnerBattleGrid /\ ships w !! 0%nat = Some s /\
  snd (attack (py "A2") c w) = inr (mkOutcome HIT (Some "Submarine"%string)).
Proof.
  intros w. eexists _, _.
  assert (Hc : grid w !! py "A2" = Some (new_cell 0 (py "A2"))) by (vm_compute; reflexivity).
  assert (Hs : ships w !! 0%nat = Some Ship_submarine) by (vm_compute; reflexivity).
  split; [exact Hc|]. split; [reflexivity|]. split; [reflexivity|]. split; [reflexivity|].
  split; [exact Hs|].
  rewrite (attack_occupied_unattacked w (py "A2") _ 0 Ship_submarine Hc eq_refl eq_refl eq_refl Hs).
  reflexivity.
Defined.

(** Claim C9: [receive_attack] does no coordinate validation: it never
    raises [InvalidCoord], and for any string that is not yet a key of the
    grid (valid coordinate or not) it stores a ["miss"] cell under that
    string and returns [miss]. *)
Theorem receive_attack_unvalidated (w : World) (s : pystr) :
  (forall bad, snd (receive_attack s w) <> inl (InvalidCoord bad)) /\
  (grid w !! s = None ->
   receive_attack s w =
   (with_grid (<[s := mkGridSpace OwnerPlayer s None "miss"]> (grid w)) w, inr Outcome_miss)).
Proof.
  split.
  - intros bad. unfold receive_attack, bind, gets. simpl.
    destruct (grid w !! s) as [[own coord sh st]|]; [|simpl; congruence].
    unfold attack. destruct (already_attacked _); [simpl; congruence|].
    unfold hit_space, bind, modify, load_ship, store_ship, gets, ret, raise. simpl.
    destruct sh as [r|]; simpl; [|congruence].
    destruct (ships w !! r) as [sh|]; simpl; [|congruence].
    rewrite lookup_insert_eq. simpl.
    destruct (is_sunk (Ship_hit sh)); [|simpl; congruence].
    destruct own; [|simpl; congruence]. simpl.
    destruct (active_ship_count w - 1 =? 0); simpl; congruence.
  - intros Hs. unfold receive_attack, bind, gets, modify, ret. simpl. by rewrite Hs.
Qed.

Lemma receive_attack_unvalidated_witness :
  grid test_world !! py "hello" = None /\
  receive_attack (py "hello") test_world =
  (with_grid (<[py "hello" := mkGridSpace OwnerPlayer (py "hello") None "miss"]> (grid test_world))
     test_world, inr Outcome_miss) /\
  snd (receive_attack (py "Z9") test_world) = inr Outcome_miss.
Proof.
  assert (H : grid test_world !! py "hello" = None) by (vm_compute; reflexivity).
  split; [exact H|]. split.
  - exact (proj2 (receive_attack_unvalidated test_world (py "hello")) H).
  - vm_compute. reflexivity.
Defined.

(** ** [receive_attack] as a function of the grid *)

Lemma receive_attack_eq (coord : pystr) (w : World) :
  receive_attack coord w =
  match grid w !! coord with
  | None => (with_grid (<[coord := mkGridSpace OwnerPlayer coord None "miss"]> (grid w)) w,
             inr Outcome_miss)
  | Some c =>
    if already_attacked c then (w, inl (AlreadyAttacked (gs_coord c))) else
    match gs_ship c with
    | None => (w, inl AttributeError)
    | Some r =>
      match ships w !! r with
      | None => (with_grid (<[coord := hit_cell c]> (grid w)) w, inl AttributeError)
      | Some s =>
        let w1 := mkWorld (<[coord := hit_cell c]> (grid w)) (active_ship_count w)
                          (<[r := Ship_hit s]> (ships w)) in
        if is_sunk (Ship_hit s) then
          match gs_grid c with
          | OwnerPlayer => (w1, inl AttributeError)
          | OwnerBattleGrid =>
              (with_count (active_ship_count w - 1) w1,
               inr (if active_ship_count w - 1 =? 0 then Outcome_win (Ship_hit s)
                    else Outcome_sunk (Ship_hit s)))
          end
        else (w1, inr (Outcome_hit (Ship_hit s)))
      end
    end
  end.
Proof.
  unfold receive_attack, bind, gets, modify, ret. simpl.
  destruct (grid w !! coord) as [[own k sh st]|]; [|done].
  unfold attack. destruct (already_attacked _); [done|].
  unfold hit_space, bind, modify, load_ship, store_ship, gets, ret, raise. simpl.
  destruct sh as [r|]; simpl; [|done].
  destruct (ships w !! r) as [s|]; simpl; [|done].
  rewrite lookup_insert_eq. simpl.
  destruct (is_sunk (Ship_hit s)); [|done].
  destruct own; simpl; [|done].
  by destruct (active_ship_count w - 1 =? 0).
Qed.

Lemma cells_ok_place (w : World) (ship : nat) (origin : pystr) (o : Orientation) :
  cells_ok w -> cells_ok (fst (place_ship ship origin o w)).
Proof.
  intros Hok. rewrite place_ship_eq.
  destruct (valid_coord origin); simpl; [|done].
  destruct (split_coord origin); [done|].
  destruct (ships w !! ship) as [s|] eqn:Hs; [|done].
  destruct (calculate_coords _ _ _); [done|].
  destruct (first_bad_coord _ _); [done|].
  intros k c. simpl. rewrite insert_cells_lookup.
  destruct (decide (k ∈ _)).
  - intros [= <-]. split; [done|]. right. exists ship. simpl.
    repeat split; [by rewrite Hs | by left].
  - intros Hk. destruct (Hok k c Hk) as [Hc Hr]. by split.
Qed.

Lemma cells_ok_attack (w : World) (coord : pystr) :
  cells_ok w -> cells_ok (fst (receive_attack coord w)).
Proof.
  intros Hok. rewrite receive_attack_eq.
  destruct (grid w !! coord) as [c|] eqn:Hc.
  2:{ intros k c'. simpl. rewrite lookup_insert.
      destruct (decide (coord = k)) as [->|].
      - intros [= <-]. split; [done|]. by left.
      - apply Hok. }
  destruct (already_attacked c); [done|].
  destruct (gs_ship c) as [r|] eqn:Hr; [|done].
  assert (Hcell : forall h, (forall r', is_Some (ships w !! r') -> is_Some (h !! r')) ->
            forall k c', <[coord := hit_cell c]> (grid w) !! k = Some c' ->
            cell_ok (mkWorld (<[coord := hit_cell c]> (grid w)) 0 h) k c').
  { intros h Hh k c'. rewrite lookup_insert.
    destruct (decide (coord = k)) as [->|].
    - intros [= <-]. destruct (Hok k c Hc) as [Hk [[Hn _]|(r' & Hr' & Hsome & Hg & _)]];
        [congruence|].
      split; [done|]. right. exists r'. unfold hit_cell. simpl.
      repeat split; [done | by apply Hh | done | by right].
    - intros Hk. destruct (Hok k c' Hk) as [Hk' [Hm | (r' & Hr' & Hsome & Hg & Hst)]];
        split; try done; [by left|]. right. exists r'. repeat split; try done. by apply Hh. }
  assert (Hcell' : forall h n, (forall r', is_Some (ships w !! r') -> is_Some (h !! r')) ->
            cells_ok (mkWorld (<[coord := hit_cell c]> (grid w)) n h)).
  { intros h n Hh k c' Hk. destruct (Hcell h Hh k c' Hk) as [H1 H2]. by split. }
  destruct (ships w !! r) as [s|] eqn:Hs.
  - assert (Hh : forall r', is_Some (ships w !! r') -> is_Some (<[r := Ship_hit s]> (ships w) !! r')).
    { intros r' Hr'. rewrite lookup_insert. case_decide; [done|done]. }
    destruct (is_sunk (Ship_hit s)); [destruct (gs_grid c)|]; by apply Hcell'.
  - by apply Hcell'.
Qed.

Lemma reachable_cells_ok (w : World) : reachable w -> cells_ok w.
Proof.
  induction 1.
  - intros k c. simpl. by rewrite lookup_empty.
  - by apply cells_ok_place.
  - by apply cells_ok_attack.
  - intros k c. simpl. by rewrite lookup_empty.
Qed.

(** ** Counting entries of a map that satisfy a predicate *)

Lemma size_filter_insert {K A : Type} `{Countable K} (P : K * A -> Prop) `{!forall x, Decision (P x)}
  (m : gmap K A) (i : K) (x : A) :
  (size (filter P (<[i := x]> m)) + present P m i =
   size (filter P m) + if decide (P (i, x)) then 1 else 0)%nat.
Proof.
  unfold present. rewrite map_filter_insert.
  assert (Hdel : forall y, filter P m !! i = Some y ->
            size (filter P m) = S (size (delete i (filter P m)))).
  { intros y Hy. rewrite <- (insert_delete_id (filter P m) i y Hy) at 1.
    rewrite map_size_insert_None; [done|]. apply lookup_delete_eq. }
  destruct (m !! i) as [y|] eqn:Hm.
  - destruct (decide (P (i, y))) as [Hy|Hy].
    + pose proof (map_lookup_filter_Some_2 P m i y Hm Hy) as Hf.
      rewrite (Hdel y Hf).
      destruct (decide (P (i, x))).
      * rewrite map_size_insert_Some; [|by eexists]. rewrite (Hdel y Hf). lia.
      * rewrite map_filter_delete. lia.
    + assert (Hf : filter P m !! i = None).
      { apply map_lookup_filter_None_2. right. intros y' Hy'. congruence. }
      destruct (decide (P (i, x))).
      * rewrite map_size_insert_None; [lia|done].
      * rewrite map_filter_delete, map_size_delete_None; [lia|done].
  - assert (Hf : filter P m !! i = None).
    { apply map_lookup_filter_None_2. by left. }
    destruct (decide (P (i, x))).
    + rewrite map_size_insert_None; [lia|done].
    + rewrite map_filter_delete, map_size_delete_None; [lia|done].
Qed.

Lemma size_filter_pointwise {K A : Type} `{Countable K} (P Q : K * A -> Prop) `{!forall x, Decision (P x)}
  `{!forall x, Decision (Q x)} (m : gmap K A) (i : K) :
  (forall j x, j <> i -> m !! j = Some x -> (P (j, x) <-> Q (j, x))) ->
  (size (filter Q m) + present P m i = size (filter P m) + present Q m i)%nat.
Proof.
  intros Hpq.
  assert (HF : filter P (delete i m) = filter Q (delete i m)).
  { apply map_filter_strong_ext_1. intros j x. rewrite lookup_delete_Some.
    split; intros (Hp & Hne & Hj); (split; [|done]); eapply Hpq; eauto. }
  unfold present. destruct (m !! i) as [y|] eqn:Hm.
  - pose proof (size_filter_insert P (delete i m) i y) as HP.
    pose proof (size_filter_insert Q (delete i m) i y) as HQ.
    unfold present in HP, HQ. rewrite lookup_delete_eq in HP, HQ.
    rewrite insert_delete_id in HP, HQ by done. rewrite HF in HP.
    destruct (decide (P (i, y))), (decide (Q (i, y))); lia.
  - rewrite delete_id in HF by done. rewrite HF. lia.
Qed.

Lemma size_filter_empty {K A : Type} `{Countable K} (P : K * A -> Prop) `{!forall x, Decision (P x)} (m : gmap K A) :
  (forall i x, m !! i = Some x -> ~ P (i, x)) -> size (filter P m) = 0%nat.
Proof.
  intros Hn. apply map_size_empty_iff. apply map_empty. intros i.
  apply map_lookup_filter_None_2. right. apply Hn.
Qed.

Lemma size_filter_pos {K A : Type} `{Countable K} (P : K * A -> Prop) `{!forall x, Decision (P x)} (m : gmap K A)
  (i : K) (x : A) :
  m !! i = Some x -> P (i, x) -> size (filter P m) <> 0%nat.
Proof.
  intros Hm Hp. apply (map_size_ne_0_lookup_2 _ i). exists x.
  by apply map_lookup_filter_Some_2.
Qed.

(** ** Placed ships, live ships and unattacked cells *)

Lemma placed_insert_same (g : gmap pystr GridSpace) (k : pystr) (c c' : GridSpace) (r : nat) :
  g !! k = Some c -> gs_ship c' = gs_ship c ->
  ship_placed (<[k := c']> g) r <-> ship_placed g r.
Proof.
  intros Hk Hs. unfold ship_placed. rewrite !map_Exists_lookup. split.
  - intros (j & x & Hj & Hx). rewrite lookup_insert in Hj.
    case_decide as E; [subst j; injection Hj as <-; exists k, c; by rewrite <- Hs|].
    by exists j, x.
  - intros (j & x & Hj & Hx). destruct (decide (k = j)) as [<-|Hne].
    + exists k, c'. rewrite lookup_insert_eq. split; [done|]. rewrite Hs. congruence.
    + exists j, x. by rewrite lookup_insert_ne.
Qed.

Lemma placed_insert_none (g : gmap pystr GridSpace) (k : pystr) (c' : GridSpace) (r : nat) :
  g !! k = None -> gs_ship c' = None ->
  ship_placed (<[k := c']> g) r <-> ship_placed g r.
Proof.
  intros Hk Hs. unfold ship_placed. rewrite map_Exists_insert by done.
  rewrite Hs. naive_solver.
Qed.

Lemma placed_insert_cells (g : gmap pystr GridSpace) (ship : nat) (coords : list pystr) (r : nat) :
  Forall (fun c => g !! c = None) coords ->
  ship_placed (insert_cells ship coords g) r <-> ship_placed g r \/ (r = ship /\ coords <> []).
Proof.
  intros Hg. rewrite Forall_forall in Hg. unfold ship_placed. rewrite !map_Exists_lookup.
  setoid_rewrite insert_cells_lookup. split.
  - intros (j & x & Hj & Hx). case_decide as E.
    + injection Hj as <-. simpl in Hx. right. split; [congruence|].
      intros ->. set_solver.
    + left. by exists j, x.
  - intros [(j & x & Hj & Hx) | [-> Hne]].
    + exists j, x. case_decide as E; [|done]. by rewrite Hg in Hj.
    + destruct coords as [|c t]; [done|]. exists c, (new_cell ship c).
      rewrite decide_True by set_solver. done.
Qed.

Lemma unattacked_insert_cells (g : gmap pystr GridSpace) (ship : nat) (coords : list pystr) (r : nat) :
  NoDup coords -> Forall (fun c => g !! c = None) coords ->
  unattacked r (insert_cells ship coords g) =
  (unattacked r g + if decide (r = ship) then length coords else 0)%nat.
Proof.
  revert g. induction coords as [|c t IH]; intros g Hnd Hg.
  - simpl. destruct (decide (r = ship)); lia.
  - change (insert_cells ship (c :: t) g) with (insert_cells ship t (<[c := new_cell ship c]> g)).
    inversion Hnd as [|? ? Hc Hnd']; subst. inversion Hg as [|? ? Hcg Hg']; subst.
    rewrite IH; [|done|].
    2:{ rewrite Forall_forall in Hg' |- *. intros x Hx. rewrite lookup_insert_ne; [by apply Hg'|].
        intros ->. by apply Hc. }
    pose proof (size_filter_insert (unattacked_cell r) g c (new_cell ship c)) as Hs.
    unfold present in Hs. rewrite Hcg in Hs. unfold unattacked. simpl length.
    destruct (decide (r = ship)) as [->|Hne].
    + rewrite decide_True in Hs by done. unfold unattacked_cell in *. lia.
    + rewrite decide_False in Hs by (intros [Hr _]; simpl in Hr; congruence).
      unfold unattacked_cell in *. lia.
Qed.

Lemma unattacked_not_placed (g : gmap pystr GridSpace) (r : nat) :
  ~ ship_placed g r -> unattacked r g = 0%nat.
Proof.
  intros Hn. apply size_filter_empty. intros k c Hk [Hs _].
  apply Hn. by eapply map_Exists_lookup_2.
Qed.

Lemma live_count_ext (g g' : gmap pystr GridSpace) (h : gmap nat Ship) :
  (forall r, ship_placed g' r <-> ship_placed g r) ->
  filter (ship_live g') h = filter (ship_live g) h.
Proof.
  intros Hp. apply map_filter_ext. intros r s _. unfold ship_live. simpl. by rewrite Hp.
Qed.

Lemma not_sunk_iff (s : Ship) : is_sunk s = false <-> (hits s < ship_size s)%nat.
Proof. unfold is_sunk. apply Nat.leb_gt. Qed.

Lemma inv_fresh_world (h : gmap nat Ship) :
  (forall r s, h !! r = Some s -> hits s = 0%nat /\ (0 < ship_size s)%nat) ->
  inv ∅ (fresh_world h).
Proof.
  intros Hh. unfold fresh_world. constructor; simpl.
  - intros k c. simpl. by rewrite lookup_empty.
  - intros r Hr. by apply map_Exists_empty in Hr.
  - intros r s _. apply Hh.
  - intros r s Hr. by apply map_Exists_empty in Hr.
  - unfold live_count. simpl. rewrite size_filter_empty; [done|].
    intros r s _ [Hr _]. by apply map_Exists_empty in Hr.
Qed.

Lemma inv_reset (used : gset nat) (w : World) : inv used w -> inv used (fst (reset w)).
Proof.
  intros I. constructor; simpl.
  - intros k c. simpl. by rewrite lookup_empty.
  - intros r Hr. by apply map_Exists_empty in Hr.
  - apply (inv_fresh _ _ I).
  - intros r s Hr. by apply map_Exists_empty in Hr.
  - unfold live_count. simpl. rewrite size_filter_empty; [done|].
    intros r s _ [Hr _]. by apply map_Exists_empty in Hr.
Qed.

Lemma inv_place (used : gset nat) (w : World) (ship : nat) (origin : pystr) (o : Orientation) :
  inv used w -> ship ∉ used ->
  inv (match snd (place_ship ship origin o w) with
       | inr _ => {[ship]} ∪ used
       | inl _ => used
       end) (fst (place_ship ship origin o w)).
Proof.
  intros I Hn. pose proof (cells_ok_place w ship origin o (inv_cells _ _ I)) as Hc.
  revert Hc. rewrite place_ship_eq.
  destruct (valid_coord origin); simpl; [|done].
  destruct (split_coord origin) as [e|ct]; [done|].
  destruct (ships w !! ship) as [s|] eqn:Hs; [|done].
  destruct (calculate_coords ct o (ship_size s)) as [e|coords] eqn:Hcalc; [done|].
  destruct (first_bad_coord (grid w) coords) eqn:Hb; [done|].
  simpl. intros Hc.
  apply first_bad_coord_None in Hb as Hb'. destruct Hb' as [Hv Hg].
  pose proof (calculate_coords_NoDup _ _ _ _ Hcalc Hv) as Hnd.
  destruct (calculate_coords_ok _ _ _ _ Hcalc) as (row & col & _ & Hlen & _).
  destruct (inv_fresh _ _ I ship s Hn Hs) as [Hh0 Hsz].
  assert (Hne : coords <> []) by (intros ->; simpl in Hlen; lia).
  assert (Hnp : ~ ship_placed (grid w) ship) by (intros Hp; by apply Hn, (inv_used _ _ I)).
  assert (Hpl : forall r, ship_placed (insert_cells ship coords (grid w)) r <->
                          ship_placed (grid w) r \/ r = ship).
  { intros r. rewrite placed_insert_cells by done. naive_solver. }
  constructor; simpl; [done| | | |].
  - intros r Hr. apply Hpl in Hr as [Hr | ->]; [|set_solver].
    apply (inv_used _ _ I) in Hr. set_solver.
  - intros r s' Hr. apply (inv_fresh _ _ I). set_solver.
  - intros r s' Hr Hs'. rewrite unattacked_insert_cells by done.
    destruct (decide (r = ship)) as [->|Hrs].
    + rewrite Hs in Hs'. injection Hs' as <-. rewrite unattacked_not_placed by done. lia.
    + apply Hpl in Hr as [Hr|]; [|done].
      pose proof (inv_hits _ _ I r s' Hr Hs'). lia.
  - rewrite (inv_count _ _ I). unfold live_count. simpl.
    pose proof (size_filter_pointwise (ship_live (grid w))
                  (ship_live (insert_cells ship coords (grid w))) (ships w) ship) as Hp.
    unfold present in Hp. rewrite Hs in Hp.
    rewrite decide_False in Hp by (intros [Hp' _]; done).
    rewrite decide_True in Hp.
    2:{ split; simpl; [apply Hpl; by right|]. apply not_sunk_iff. lia. }
    assert (Hq : forall j x, j <> ship -> ships w !! j = Some x ->
              ship_live (grid w) (j, x) <-> ship_live (insert_cells ship coords (grid w)) (j, x)).
    { intros j x Hj _. unfold ship_live. simpl. rewrite Hpl. naive_solver. }
    specialize (Hp Hq). lia.
Qed.

Lemma inv_attack (used : gset nat) (w : World) (coord : pystr) :
  inv used w -> inv used (fst (receive_attack coord w)).
Proof.
  intros I. pose proof (cells_ok_attack w coord (inv_cells _ _ I)) as Hc.
  revert Hc. rewrite receive_attack_eq.
  destruct (grid w !! coord) as [c|] eqn:Hk.
  2:{ simpl. intros Hc.
      assert (Hpl : forall r, ship_placed (<[coord := mkGridSpace OwnerPlayer coord None "miss"]> (grid w)) r
                              <-> ship_placed (grid w) r)
        by (intros r; apply (placed_insert_none (grid w)); done).
      constructor; simpl; [done| | apply (inv_fresh _ _ I) | |].
      - intros r Hr. apply (inv_used _ _ I). by apply Hpl.
      - intros r s Hr Hs. apply Hpl in Hr. rewrite <- (inv_hits _ _ I r s Hr Hs).
        f_equal. unfold unattacked.
        pose proof (size_filter_insert (unattacked_cell r) (grid w) coord
                      (mkGridSpace OwnerPlayer coord None "miss")) as Hs'.
        unfold present in Hs'. rewrite Hk in Hs'.
        rewrite decide_False in Hs' by (intros [Hx _]; done). lia.
      - rewrite (inv_count _ _ I). unfold live_count. simpl. by rewrite (live_count_ext (grid w) _ _ Hpl). }
  destruct (already_attacked c) eqn:Ha; [done|].
  destruct (inv_cells _ _ I coord c Hk) as [Hkc [[Hn Hst] | (r & Hr & Hsome & Hown & Hst)]].
  { unfold already_attacked in Ha. rewrite Hst in Ha. done. }
  assert (Hst' : gs_state c = ""%string).
  { unfold already_attacked in Ha. apply negb_false_iff, String.eqb_eq in Ha. done. }
  rewrite Hr. destruct Hsome as [s Hs]. rewrite Hs, Hown.
  set (g' := <[coord := hit_cell c]> (grid w)).
  set (h' := <[r := Ship_hit s]> (ships w)).
  assert (Hpl : forall r', ship_placed g' r' <-> ship_placed (grid w) r')
    by (intros r'; by apply placed_insert_same with c).
  assert (Hrp : ship_placed (grid w) r) by (by eapply map_Exists_lookup_2).
  assert (Hru : r ∈ used) by (by apply (inv_used _ _ I)).
  assert (Hu : forall r', (unattacked r' g' + (if decide (r' = r) then 1 else 0) =
                           unattacked r' (grid w))%nat).
  { intros r'. unfold unattacked, g'.
    pose proof (size_filter_insert (unattacked_cell r') (grid w) coord (hit_cell c)) as Hs'.
    unfold present in Hs'. rewrite Hk in Hs'.
    rewrite (decide_False _ _ (P := unattacked_cell r' (coord, hit_cell c))) in Hs'
      by (intros [_ Hx]; done).
    destruct (decide (r' = r)) as [->|Hne].
    - rewrite decide_True in Hs' by (split; done). lia.
    - rewrite decide_False in Hs' by (intros [Hx _]; simpl in Hx; congruence). lia. }
  pose proof (inv_hits _ _ I r s Hrp Hs) as Hhs.
  assert (Hpos : unattacked r (grid w) <> 0%nat).
  { apply (size_filter_pos _ _ coord c Hk). split; done. }
  assert (Hlive : (size (filter (ship_live g') h') + 1 =
                   live_count w + if is_sunk (Ship_hit s) then 0 else 1)%nat).
  { unfold h'. rewrite (live_count_ext (grid w) _ _ Hpl). unfold live_count.
    pose proof (size_filter_insert (ship_live (grid w)) (ships w) r (Ship_hit s)) as Hs'.
    unfold present in Hs'. rewrite Hs in Hs'.
    rewrite decide_True in Hs'.
    2:{ split; [done|]. simpl. apply not_sunk_iff. pose proof (Hu r). lia. }
    destruct (is_sunk (Ship_hit s)) eqn:Hsk.
    - rewrite decide_False in Hs' by (intros [_ Hx]; simpl in Hx; congruence). lia.
    - rewrite decide_True in Hs' by done. lia. }
  assert (Hinv : forall n, cells_ok (mkWorld g' n h') ->
                   n = Z.of_nat (size (filter (ship_live g') h')) ->
                   inv used (mkWorld g' n h')).
  { intros n Hc Hn. constructor; simpl; [done| | | |done].
    - intros r' Hr'. apply (inv_used _ _ I). by apply Hpl.
    - intros r' s' Hr' Hs'. apply (inv_fresh _ _ I r'); [done|].
      unfold h' in Hs'. rewrite lookup_insert_ne in Hs' by set_solver. done.
    - intros r' s' Hr' Hs'. apply Hpl in Hr'. pose proof (Hu r') as Hu'.
      unfold h' in Hs'. rewrite lookup_insert in Hs'.
      destruct (decide (r = r')) as [<-|Hne].
      + injection Hs' as <-. simpl. rewrite decide_True in Hu' by done. lia.
      + rewrite decide_False in Hu' by congruence.
        pose proof (inv_hits _ _ I r' s' Hr' Hs'). lia. }
  pose proof (inv_count _ _ I) as Hcnt.
  destruct (is_sunk (Ship_hit s)); simpl; intros Hc; apply Hinv; try done; lia.
Qed.

Lemma reach_once_inv (used : gset nat) (w : World) : reach_once used w -> inv used w.
Proof.
  induction 1.
  - by apply inv_fresh_world.
  - by apply inv_place.
  - by apply inv_attack.
  - by apply inv_reset.
Qed.

(** ** Sequences of public operations *)

Lemma two_ship_heap_fresh (r : nat) (s : Ship) :
  two_ship_heap !! r = Some s -> hits s = 0%nat /\ (0 < ship_size s)%nat.
Proof.
  revert r s. apply map_Forall_lookup. unfold two_ship_heap.
  repeat apply map_Forall_insert_2; [..|apply map_Forall_empty]; simpl; lia.
Qed.

Ltac reach_once_tac :=
  match goal with
  | |- reach_once _ (fst (receive_attack _ _)) => apply ro_attack; reach_once_tac
  | |- reach_once _ (fst (reset _)) => apply ro_reset; reach_once_tac
  | |- reach_once _ (fst (place_ship _ _ _ _)) =>
      apply ro_place; [reach_once_tac | apply (bool_decide_unpack _); vm_compute; reflexivity]
  | |- reach_once _ (fresh_world _) => apply ro_fresh, two_ship_heap_fresh
  end.

Lemma exec_keeps_attacked (op : Op) (w : World) (k : pystr) (c : GridSpace) :
  is_reset op = false -> grid w !! k = Some c -> already_attacked c = true ->
  grid (exec op w) !! k = Some c.
Proof.
  intros Hop Hk Ha. destruct op as [ship origin o | coord |]; simpl; [| |done].
  - rewrite place_ship_eq.
    destruct (valid_coord origin); simpl; [|done].
    destruct (split_coord origin) as [e|ct]; [done|].
    destruct (ships w !! ship) as [s|]; [|done].
    destruct (calculate_coords ct o (ship_size s)) as [e|coords]; [done|].
    destruct (first_bad_coord (grid w) coords) eqn:Hb; [done|].
    simpl. rewrite insert_cells_lookup. case_decide as Hin; [|done].
    apply first_bad_coord_None in Hb as [_ Hg]. rewrite Forall_forall in Hg.
    rewrite (Hg k Hin) in Hk. done.
  - rewrite receive_attack_eq.
    destruct (grid w !! coord) as [c'|] eqn:Hc'.
    + destruct (already_attacked c') eqn:Ha'; [done|].
      assert (Hne : coord <> k) by (intros ->; congruence).
      repeat (case_match; simpl); by rewrite ?lookup_insert_ne.
    + simpl. rewrite lookup_insert_ne; [done|]. intros ->. congruence.
Qed.

Lemma run_ops_keeps_attacked (ops : list Op) (w : World) (k : pystr) (c : GridSpace) :
  forallb (fun op => negb (is_reset op)) ops = true ->
  grid w !! k = Some c -> already_attacked c = true ->
  grid (run_ops ops w) !! k = Some c.
Proof.
  revert w. induction ops as [|op rest IH]; intros w Hops Hk Ha; [done|].
  simpl in Hops. apply andb_prop in Hops as [Hop Hrest]. simpl.
  apply IH; [done| |done]. apply exec_keeps_attacked; [|done|done].
  by apply negb_true_iff.
Qed.

(** ** Claims about attacks *)

(** Claim C10: in every state reachable through [place_ship],
    [receive_attack] and [reset], every cell holds a ship or is a miss; so
    no [receive_attack] ever faults with [AttributeError] (the model's
    name for dereferencing a missing ship or a missing live-ship count). *)
Theorem attack_never_faults (w : World) :
  reachable w ->
  (forall k c, grid w !! k = Some c -> is_Some (gs_ship c) \/ gs_state c = "miss"%string) /\
  forall coord, snd (receive_attack coord w) <> inl AttributeError.
Proof.
  intros Hr. pose proof (reachable_cells_ok w Hr) as Hok. split.
  - intros k c Hk. destruct (Hok k c Hk) as [_ [[_ Hm] | (r & Hs & _)]]; [by right|].
    left. by rewrite Hs.
  - intros coord. rewrite receive_attack_eq.
    destruct (grid w !! coord) as [c|] eqn:Hk; [|done].
    destruct (already_attacked c) eqn:Ha; [done|].
    destruct (Hok coord c Hk) as [_ [[_ Hm] | (r & Hs & [s Hsome] & Hown & _)]].
    { unfold already_attacked in Ha. by rewrite Hm in Ha. }
    rewrite Hs, Hsome, Hown. simpl.
    destruct (is_sunk (Ship_hit s)); simpl; [|done].
    by destruct (active_ship_count w - 1 =? 0).
Qed.

Lemma attack_never_faults_witness :
  reachable (fst (place_ship 0 (py "A1") LANDSCAPE (fresh_world two_ship_heap))) /\
  (forall k c, grid (fst (place_ship 0 (py "A1") LANDSCAPE (fresh_world two_ship_heap))) !! k = Some c ->
               is_Some (gs_ship c) \/ gs_state c = "miss"%string) /\
  forall coord, snd (receive_attack coord
                       (fst (place_ship 0 (py "A1") LANDSCAPE (fresh_world two_ship_heap))))
                <> inl AttributeError.
Proof.
  assert (Hr : reachable (fst (place_ship 0 (py "A1") LANDSCAPE (fresh_world two_ship_heap))))
    by (apply reach_place, reach_fresh).
  split; [exact Hr|]. apply attack_never_faults. exact Hr.
Defined.

(** Claim C5: attacking a coordinate with no cell creates a [miss] cell and
    returns a miss; every later attack on that coordinate, after any
    placements and attacks, fails with [AlreadyAttacked] naming it; and in a
    reachable state every attack on a cell in the [hit] or [miss] state
    fails with [AlreadyAttacked] naming its coordinate, changing nothing. *)
Theorem miss_then_already_attacked (w : World) (coord : pystr) :
  grid w !! coord = None ->
  receive_attack coord w =
    (with_grid (<[coord := mkGridSpace OwnerPlayer coord None "miss"]> (grid w)) w,
     inr Outcome_miss) /\
  (forall ops, forallb (fun op => negb (is_reset op)) ops = true ->
     receive_attack coord (run_ops ops (fst (receive_attack coord w))) =
       (run_ops ops (fst (receive_attack coord w)), inl (AlreadyAttacked coord))) /\
  (forall w' k c, reachable w' -> grid w' !! k = Some c ->
     gs_state c = "hit"%string \/ gs_state c = "miss"%string ->
     receive_attack k w' = (w', inl (AlreadyAttacked k))).
Proof.
  intros Hk.
  assert (Hfirst : receive_attack coord w =
    (with_grid (<[coord := mkGridSpace OwnerPlayer coord None "miss"]> (grid w)) w,
     inr Outcome_miss)) by (rewrite receive_attack_eq, Hk; done).
  split; [done|]. split.
  - intros ops Hops. rewrite Hfirst. simpl.
    rewrite receive_attack_eq.
    rewrite (run_ops_keeps_attacked ops _ coord (mkGridSpace OwnerPlayer coord None "miss"));
      [done|done|simpl; apply lookup_insert_eq|done].
  - intros w' k c Hr Hc Hst. rewrite receive_attack_eq, Hc.
    destruct (reachable_cells_ok w' Hr k c Hc) as [Hkc _].
    unfold already_attacked. by destruct Hst as [-> | ->]; rewrite Hkc.
Qed.

Lemma miss_then_already_attacked_witness :
  grid test_world !! py "B3" = None /\
  receive_attack (py "B3") test_world =
    (with_grid (<[py "B3" := mkGridSpace OwnerPlayer (py "B3") None "miss"]> (grid test_world)) test_world,
     inr Outcome_miss) /\
  (forall ops, forallb (fun op => negb (is_reset op)) ops = true ->
     receive_attack (py "B3") (run_ops ops (fst (receive_attack (py "B3") test_world))) =
       (run_ops ops (fst (receive_attack (py "B3") test_world)), inl (AlreadyAttacked (py "B3")))) /\
  (forall w' k c, reachable w' -> grid w' !! k = Some c ->
     gs_state c = "hit"%string \/ gs_state c = "miss"%string ->
     receive_attack k w' = (w', inl (AlreadyAttacked k))).
Proof.
  assert (Hk : grid test_world !! py "B3" = None) by (vm_compute; reflexivity).
  split; [exact Hk|]. apply miss_then_already_attacked. exact Hk.
Defined.

(** ** Claim about the live-ship count *)

(** Claim C6 (counterexample): each ship is placed once, yet the count
    drops to zero twice, each time with a [WIN]: once the Destroyer is
    sunk, and again after the Submarine is placed and sunk. *)
Lemma live_count_zero_twice :
  (exists used, reach_once used (run_ops two_games (fresh_world two_ship_heap))) /\
  count_trace two_games (fresh_world two_ship_heap) =
    [(1, None); (1, Some HIT); (0, Some WIN);
     (1, None); (1, Some HIT); (1, Some HIT); (0, Some WIN)].
Proof.
  split.
  - eexists. unfold two_games. cbn [run_ops exec]. reach_once_tac.
  - vm_compute. reflexivity.
Qed.

(** Claim C6 (amended): with each ship placed at most once, the live-ship
    count always equals the number of distinct placed ships that are not
    sunk, and an attack returns [WIN] exactly when it takes that number
    from nonzero to zero. *)
Theorem live_count_invariant (used : gset nat) (w : World) :
  reach_once used w ->
  active_ship_count w = Z.of_nat (live_count w) /\
  forall coord o, snd (receive_attack coord w) = inr o ->
    (outcome_state o = WIN <->
     (live_count w <> 0 /\ live_count (fst (receive_attack coord w)) = 0)%nat).
Proof.
  intros Hr. pose proof (reach_once_inv used w Hr) as I.
  split; [apply (inv_count _ _ I)|].
  intros coord o. pose proof (inv_count _ _ I) as C.
  pose proof (inv_count _ _ (inv_attack used w coord I)) as C'.
  revert C'. rewrite receive_attack_eq.
  destruct (grid w !! coord) as [c|]; simpl;
    [|intros C' [= <-]; simpl; split; [done|lia]].
  destruct (already_attacked c); [done|].
  destruct (gs_ship c) as [r|]; [|done].
  destruct (ships w !! r) as [s|]; [|done].
  destruct (is_sunk (Ship_hit s)).
  - destruct (gs_grid c); simpl; [|done].
    intros C'. destruct (Z.eqb_spec (active_ship_count w - 1) 0) as [E|E];
      intros [= <-]; simpl; split; try done; lia.
  - simpl. intros C' [= <-]. simpl. split; [done|]. lia.
Qed.

Lemma live_count_invariant_witness :
  (exists used, reach_once used (fst (place_ship 0 (py "A1") LANDSCAPE (fresh_world two_ship_heap)))) /\
  active_ship_count (fst (place_ship 0 (py "A1") LANDSCAPE (fresh_world two_ship_heap))) =
    Z.of_nat (live_count (fst (place_ship 0 (py "A1") LANDSCAPE (fresh_world two_ship_heap)))) /\
  forall coord o,
    snd (receive_attack coord (fst (place_ship 0 (py "A1") LANDSCAPE (fresh_world two_ship_heap)))) = inr o ->
    (outcome_state o = WIN <->
     (live_count (fst (place_ship 0 (py "A1") LANDSCAPE (fresh_world two_ship_heap))) <> 0 /\
      live_count (fst (receive_attack coord
        (fst (place_ship 0 (py "A1") LANDSCAPE (fresh_world two_ship_heap))))) = 0)%nat).
Proof.
  assert (Hr : reach_once ({[0%nat]} ∪ ∅)
                 (fst (place_ship 0 (py "A1") LANDSCAPE (fresh_world two_ship_heap)))).
  { change ({[0%nat]} ∪ ∅) with
      (match snd (place_ship 0 (py "A1") LANDSCAPE (fresh_world two_ship_heap)) with
       | inr _ => {[0%nat]} ∪ (∅ : gset nat) | inl _ => ∅ end).
    reach_once_tac. }
  split; [by eexists|]. apply (live_count_invariant ({[0%nat]} ∪ ∅)). exact Hr.
Defined.

(** ** [random_layout] *)

Lemma layout_attempts_mono (f f' : nat) (rng : nat -> Draw) (i : nat) (attempted : list Draw)
  (ships_remaining : list nat) (w w' : World) (x : nat * list Draw * list nat) :
  (f <= f')%nat ->
  layout_attempts f rng i attempted ships_remaining w = (w', inr (Some x)) ->
  layout_attempts f' rng i attempted ships_remaining w = (w', inr (Some x)).
Proof.
  revert f' i attempted ships_remaining w.
  induction f as [|f IH]; intros f' i attempted ships_remaining w Hle; [done|].
  destruct f' as [|f']; [lia|]. simpl.
  destruct ships_remaining as [|ship rest]; [done|].
  destruct (length attempted <? max_attempts)%nat; [|done].
  case_bool_decide; [apply IH; lia|].
  unfold bind. destruct (try_place ship (rng i) w) as [w1 [e|b]]; [done|].
  apply IH. lia.
Qed.

(** Once [attempted] holds [max_attempts] draws, the inner loop exits at
    once, and the outer loop resets and starts again without end. *)
Lemma random_layout_loop_stuck (fuel : nat) (rng : nat -> Draw) (ships : list nat) (i : nat)
  (attempted : list Draw) (w : World) :
  ships <> [] -> (max_attempts <= length attempted)%nat ->
  snd (random_layout_loop fuel rng ships i attempted ships w) = inr None.
Proof.
  intros Hs Hlen. revert w. induction fuel as [|f IH]; intros w; [done|].
  destruct ships as [|ship rest] eqn:Hships; [done|]. simpl.
  assert (Hlt : (length attempted <? max_attempts)%nat = false) by (apply Nat.ltb_ge; lia).
  destruct f as [|f'].
  - simpl. rewrite Hlt. simpl. done.
  - simpl. rewrite Hlt. simpl. unfold bind, reset, modify. simpl. apply IH.
Qed.

(** Claim C7 (code bug): the fleet of sizes 8, 7 and 2 has a legal layout
    (A1, B1 and C1, all landscape), yet with the draws of [draw_order] the
    first pass spends all 128 attempts and leaves the last ship unplaced;
    [attempted] is never cleared, so after the reset no attempt is made
    and [random_layout] never returns, whatever the fuel. *)
Theorem random_layout_stuck :
  (exists w', (let! _ := place_ship 0 (py "A1") LANDSCAPE in
               let! _ := place_ship 1 (py "B1") LANDSCAPE in
               place_ship 2 (py "C1") LANDSCAPE) (fresh_world long_fleet_heap) = (w', inr tt)) /\
  forall fuel, snd (random_layout fuel draw_rng [0; 1; 2]%nat (fresh_world long_fleet_heap))
               <> inr (Some tt).
Proof.
  split; [eexists; vm_compute; reflexivity|].
  intros [|f]; [done|]. unfold random_layout. cbn [random_layout_loop]. unfold bind.
  pose proof draw_order_first_pass as Hfirst.
  destruct (layout_attempts 129 draw_rng 0 [] [0; 1; 2]%nat (fresh_world long_fleet_heap))
    as [w129 r129] eqn:E129.
  simpl in Hfirst. subst r129.
  destruct (layout_attempts (S f) draw_rng 0 [] [0; 1; 2]%nat (fresh_world long_fleet_heap))
    as [w1 [e|[x|]]] eqn:E; [simpl; congruence| |simpl; congruence].
  assert (Hx : x = (128%nat, draw_order, [2%nat])).
  { destruct (decide (S f <= 129)%nat) as [Hle|Hgt].
    - apply (layout_attempts_mono _ 129) in E; [|done]. congruence.
    - apply (layout_attempts_mono _ (S f)) in E129; [|lia]. congruence. }
  subst x. unfold bind, reset, modify. simpl.
  rewrite random_layout_loop_stuck; [done|done|].
  vm_compute. lia.
Qed.

(** * Further properties: the computer player, sequences of attacks, reset *)

Lemma zrange_elem (a : Z) (n : nat) (x : Z) :
  x ∈ zrange a n <-> a <= x < a + Z.of_nat n.
Proof.
  unfold zrange. rewrite list_elem_of_In, in_map_iff. split.
  - intros (i & <- & Hi). apply in_seq in Hi. lia.
  - intros Hx. exists (Z.to_nat (x - a)). rewrite in_seq. split; lia.
Qed.

Lemma py_str_int_digit (z : Z) : 0 <= z < 10 -> py_str_int z = [48 + z].
Proof.
  intros Hz. unfold py_str_int. destruct (Z.ltb_spec z 0); [lia|].
  by rewrite dec_digits_small.
Qed.

Lemma ai_targets_elem (c : pystr) :
  c ∈ ai_targets <-> exists x y, 0 <= x < 8 /\ 0 <= y < 8 /\ c = [65 + x; 49 + y].
Proof.
  unfold ai_targets. rewrite list_elem_of_In, in_flat_map. split.
  - intros (row & Hrow & Hc). apply in_map_iff in Hc as (col & <- & Hcol).
    apply list_elem_of_In, zrange_elem in Hcol.
    assert (Hb : Forall (fun r => 65 <= r <= 72) (py "ABCDEFGH"))
      by (apply (bool_decide_unpack _); vm_compute; reflexivity).
    rewrite Forall_forall in Hb. apply list_elem_of_In, Hb in Hrow.
    exists (row - 65), (col - 1). rewrite py_str_int_digit by lia.
    repeat split; try lia. simpl. f_equal; [lia|f_equal; lia].
  - intros (x & y & Hx & Hy & ->). exists (65 + x). split.
    + assert (Hx' : x = 0 \/ x = 1 \/ x = 2 \/ x = 3 \/ x = 4 \/ x = 5 \/ x = 6 \/ x = 7)
        by lia.
      rewrite <- list_elem_of_In.
      intuition subst; apply (bool_decide_unpack _); vm_compute; reflexivity.
    + apply in_map_iff. exists (y + 1). split.
      * rewrite py_str_int_digit by lia. simpl. do 2 f_equal. lia.
      * apply list_elem_of_In, zrange_elem. simpl. lia.
Qed.

Lemma encode_index_board (x y : Z) :
  0 <= x < 8 -> 0 <= y < 8 -> encode_index (x, y) = inr [65 + x; 49 + y].
Proof.
  intros Hx Hy. unfold encode_index, index_tuple_to_coord_tuple, py_chr.
  rewrite (proj2 (Z.leb_le 0 (x + 65)) ltac:(lia)), (proj2 (Z.ltb_lt (x + 65) 1114112) ltac:(lia)).
  cbn [andb sbind]. unfold tuple_to_coord. cbn [fst snd].
  rewrite py_str_int_digit by lia. simpl. f_equal. f_equal; [lia|]. f_equal. lia.
Qed.

(** Cells other than the attacked one are left as they are. *)
Lemma receive_attack_grid_other (coord k : pystr) (w : World) :
  k <> coord -> grid (fst (receive_attack coord w)) !! k = grid w !! k.
Proof.
  intros Hne. rewrite receive_attack_eq.
  repeat (case_match; simpl); by rewrite ?lookup_insert_ne.
Qed.

(** A successful attack leaves a miss or a hit at its coordinate. *)
Lemma receive_attack_marks (coord : pystr) (w w1 : World) (o : Outcome) :
  receive_attack coord w = (w1, inr o) ->
  exists c, grid w1 !! coord = Some c /\
            (gs_state c = "miss"%string \/ gs_state c = "hit"%string).
Proof.
  rewrite receive_attack_eq.
  destruct (grid w !! coord) as [c|]; [|intros [= <- _]; simpl; rewrite lookup_insert_eq; eauto].
  destruct (already_attacked c); [done|].
  destruct (gs_ship c) as [r|]; [|done].
  destruct (ships w !! r) as [s|]; [|done].
  destruct (is_sunk (Ship_hit s)); [destruct (gs_grid c)|];
    intros [= <- _]; simpl; rewrite lookup_insert_eq; eauto.
Qed.

(** An attack on a cell not yet attacked succeeds in a well-formed grid. *)
Lemma receive_attack_fresh_ok (coord : pystr) (w : World) :
  cells_ok w ->
  (forall c, grid w !! coord = Some c -> gs_state c = ""%string) ->
  exists w1 o, receive_attack coord w = (w1, inr o).
Proof.
  intros Hok Hfresh. rewrite receive_attack_eq.
  destruct (grid w !! coord) as [c|] eqn:Hc; [|eauto].
  specialize (Hfresh c eq_refl).
  destruct (Hok coord c Hc) as [_ [[_ Hm] | (r & Hs & [s Hr] & Hg & _)]];
    [by rewrite Hfresh in Hm|].
  unfold already_attacked. rewrite Hfresh. simpl. rewrite Hs, Hr.
  destruct (is_sunk (Ship_hit s)); [rewrite Hg|]; eauto.
Qed.

(** How one successful attack changes the live-ship count. *)
Lemma receive_attack_count (coord : pystr) (w w1 : World) (o : Outcome) :
  receive_attack coord w = (w1, inr o) ->
  (active_ship_count w1 = active_ship_count w /\ outcome_state o <> WIN) \/
  (active_ship_count w1 = active_ship_count w - 1 /\
   (outcome_state o = WIN <-> active_ship_count w1 = 0)).
Proof.
  rewrite receive_attack_eq.
  destruct (grid w !! coord) as [c|]; [|intros [= <- <-]; left; done].
  destruct (already_attacked c); [done|].
  destruct (gs_ship c) as [r|]; [|done].
  destruct (ships w !! r) as [s|]; [|done].
  destruct (is_sunk (Ship_hit s)); [destruct (gs_grid c); [|done]|].
  - intros [= <- <-]. right. simpl. split; [done|].
    destruct (Z.eqb_spec (active_ship_count w - 1) 0); simpl; split; congruence.
  - intros [= <- <-]. left. done.
Qed.

Lemma receive_attacks_fresh (coords : list pystr) : forall (w : World),
  cells_ok w -> NoDup coords ->
  (forall coord c, coord ∈ coords -> grid w !! coord = Some c -> gs_state c = ""%string) ->
  exists w' os, receive_attacks coords w = (w', inr os) /\ length os = length coords.
Proof.
  induction coords as [|coord rest IH]; intros w Hok Hnd Hfresh.
  - by exists w, [].
  - apply NoDup_cons in Hnd as [Hnin Hnd].
    destruct (receive_attack_fresh_ok coord w Hok) as (w1 & o & E);
      [intros c; apply Hfresh; left|].
    assert (Hok1 : cells_ok w1).
    { pose proof (cells_ok_attack w coord Hok) as H. by rewrite E in H. }
    destruct (IH w1 Hok1 Hnd) as (w' & os & E' & Hlen).
    { intros k c Hk Hc. assert (Hne : k <> coord) by (intros ->; done).
      pose proof (receive_attack_grid_other coord k w Hne) as G. rewrite E in G.
      simpl in G. rewrite G in Hc. apply (Hfresh k); [by right|done]. }
    exists w', (o :: os). simpl. unfold bind. rewrite E, E'. simpl. auto.
Qed.

(** No ship cell left unattacked: every placed ship is sunk, so the
    live-ship count is zero. *)
Lemma inv_all_attacked_count (used : gset nat) (w : World) :
  inv used w ->
  (forall k c r, grid w !! k = Some c -> gs_ship c = Some r -> gs_state c <> ""%string) ->
  active_ship_count w = 0.
Proof.
  intros I Hall. rewrite (inv_count _ _ I). unfold live_count.
  rewrite (size_filter_empty (ship_live (grid w)) (ships w)); [done|].
  intros r s Hs [Hpl Hns]. simpl in *.
  pose proof (inv_hits _ _ I r s Hpl Hs) as Hh.
  assert (Hu : unattacked r (grid w) = 0%nat).
  { apply size_filter_empty. intros k c Hk [Hsh Hst]. simpl in *.
    exact (Hall k c r Hk Hsh Hst). }
  rewrite Hu in Hh. apply not_sunk_iff in Hns. lia.
Qed.

Lemma receive_attacks_sink_all (used : gset nat) (coords : list pystr) : forall (w : World),
  inv used w -> NoDup coords ->
  (forall coord c, coord ∈ coords -> grid w !! coord = Some c -> gs_state c = ""%string) ->
  (forall k c r, grid w !! k = Some c -> gs_ship c = Some r -> gs_state c = ""%string ->
                 k ∈ coords) ->
  exists w' os, receive_attacks coords w = (w', inr os) /\ length os = length coords /\
    active_ship_count w' = 0 /\
    (WIN ∈ map outcome_state os <-> 0 < active_ship_count w).
Proof.
  induction coords as [|coord rest IH]; intros w I Hnd Hfresh Hcover.
  - exists w, []. simpl. split; [done|]. split; [done|].
    assert (C : active_ship_count w = 0).
    { apply (inv_all_attacked_count used); [done|].
      intros k c r Hk Hs Hst. apply (Hcover k c r Hk Hs) in Hst. by apply elem_of_nil in Hst. }
    split; [done|]. rewrite C. split; [intros H; by apply elem_of_nil in H | lia].
  - apply NoDup_cons in Hnd as [Hnin Hnd].
    destruct (receive_attack_fresh_ok coord w (inv_cells _ _ I)) as (w1 & o & E);
      [intros c; apply Hfresh; left|].
    assert (I1 : inv used w1).
    { pose proof (inv_attack used w coord I) as H. by rewrite E in H. }
    assert (G : forall k, k <> coord -> grid w1 !! k = grid w !! k).
    { intros k Hne. pose proof (receive_attack_grid_other coord k w Hne) as G.
      by rewrite E in G. }
    destruct (IH w1 I1 Hnd) as (w' & os & E' & Hlen & C' & Hwin).
    { intros k c Hk Hc. assert (Hne : k <> coord) by (intros ->; done).
      rewrite (G k Hne) in Hc. apply (Hfresh k); [by right|done]. }
    { intros k c r Hk Hs Hst. destruct (decide (k = coord)) as [->|Hne].
      - destruct (receive_attack_marks coord w w1 o E) as (c' & Hc' & Hm).
        rewrite Hk in Hc'. injection Hc' as <-. by destruct Hm as [Hm|Hm]; rewrite Hm in Hst.
      - rewrite (G k Hne) in Hk. apply (Hcover k c r Hk Hs) in Hst.
        apply elem_of_cons in Hst as [Hst|Hst]; [done|exact Hst]. }
    exists w', (o :: os). simpl. unfold bind. rewrite E, E'. simpl.
    split; [done|]. split; [by rewrite Hlen|]. split; [done|].
    pose proof (inv_count _ _ I1) as N1.
    rewrite elem_of_cons, Hwin.
    destruct (receive_attack_count coord w w1 o E) as [[Hc Hn] | [Hc Hw]].
    + rewrite Hc. split; [intros [H|H]; [congruence|done] | by right].
    + destruct (Z.eq_dec (active_ship_count w1) 0) as [Z0|Z0].
      * split; [lia|]. intros _. left. symmetry. by apply Hw.
      * split; [lia|]. intros _. right. lia.
Qed.

Lemma computer_turns_all (targets : list pystr) : forall (w : World),
  computer_turns (length targets) targets w =
  match receive_attacks targets w with
  | (w', inr os) => (w', inr (Some (os, [])))
  | (w', inl e) => (w', inl e)
  end /\
  computer_turns (S (length targets)) targets w =
  match receive_attacks targets w with
  | (w', inr os) => (w', inr None)
  | (w', inl e) => (w', inl e)
  end.
Proof.
  induction targets as [|t rest IH]; intros w; [done|].
  assert (E : forall n, computer_turns (S n) (t :: rest) =
    let! outcome := receive_attack t in
    let! r := computer_turns n rest in
    ret (option_map (fun '(os, ts) => (outcome :: os, ts)) r)) by done.
  change (length (t :: rest)) with (S (length rest)). rewrite !E.
  change (receive_attacks (t :: rest)) with
    (let! o := receive_attack t in let! os := receive_attacks rest in ret (o :: os)).
  unfold bind, ret.
  destruct (receive_attack t w) as [w1 [e|o]]; [done|].
  destruct (IH w1) as [H1 H2]. rewrite H1, H2.
  destruct (receive_attacks rest w1) as [w' [e|os]]; done.
Qed.

Lemma dict_keys_map_to_list (g : gmap pystr GridSpace) :
  dict_keys g (map_to_list g).*1.
Proof.
  split; [apply NoDup_fst_map_to_list|].
  intros k. rewrite list_elem_of_fmap. split.
  - intros ([k' c] & -> & Hin). apply elem_of_map_to_list in Hin. by exists c.
  - intros [c Hc]. exists (k, c). split; [done|]. by apply elem_of_map_to_list.
Qed.

Lemma not_attacked_iff (c : GridSpace) :
  already_attacked c = false <-> gs_state c = ""%string.
Proof.
  unfold already_attacked. rewrite negb_false_iff. apply String.eqb_eq.
Qed.

Lemma ai_targets_perm_elem (targets : list pystr) (c : pystr) :
  Permutation ai_targets targets -> c ∈ targets <-> c ∈ ai_targets.
Proof.
  intros Hp. rewrite !list_elem_of_In. split.
  - apply Permutation_in. by symmetry.
  - by apply Permutation_in.
Qed.

Lemma ai_targets_perm_NoDup (targets : list pystr) :
  Permutation ai_targets targets -> NoDup targets /\ length targets = 64%nat.
Proof.
  intros Hp. split.
  - rewrite <- Hp. apply (bool_decide_unpack _). vm_compute. reflexivity.
  - rewrite <- (Permutation_length Hp). reflexivity.
Qed.

(** Extra X1: whatever order [random.shuffle] gives, the computer player's
    target list has 64 entries, none repeated, all accepted by
    [valid_coord], and they are exactly the coordinates [encode_index]
    gives to the 64 cells of the board. *)
Theorem ai_targets_cover_board (targets : list pystr) :
  Permutation ai_targets targets ->
  length targets = 64%nat /\ NoDup targets /\
  Forall (fun c => valid_coord c = true) targets /\
  forall c, c ∈ targets <->
    exists x y, 0 <= x < 8 /\ 0 <= y < 8 /\ encode_index (x, y) = inr c.
Proof.
  intros Hp. destruct (ai_targets_perm_NoDup targets Hp) as [Hnd Hlen].
  assert (Hall : forall c, c ∈ targets <->
            exists x y, 0 <= x < 8 /\ 0 <= y < 8 /\ encode_index (x, y) = inr c).
  { intros c. rewrite (ai_targets_perm_elem targets c Hp), ai_targets_elem.
    split; intros (x & y & Hx & Hy & E); exists x, y; split; [done| |done|]; split; [done| |done|].
    - by rewrite E, encode_index_board.
    - rewrite encode_index_board in E by done. by injection E. }
  split; [done|]. split; [done|]. split; [|done].
  apply Forall_forall. intros c Hc.
  apply Hall in Hc as (x & y & Hx & Hy & E).
  rewrite encode_index_board in E by done. injection E as <-.
  unfold valid_coord, coord_regex_search, is_A_H, is_0_8.
  rewrite (proj2 (Z.leb_le 65 (65 + x)) ltac:(lia)), (proj2 (Z.leb_le (65 + x) 72) ltac:(lia)).
  by rewrite (proj2 (Z.leb_le 48 (49 + y)) ltac:(lia)), (proj2 (Z.leb_le (49 + y) 56) ltac:(lia)).
Qed.

Lemma ai_targets_cover_board_witness :
  Permutation ai_targets (rev ai_targets) /\
  (length (rev ai_targets) = 64%nat /\ NoDup (rev ai_targets) /\
   Forall (fun c => valid_coord c = true) (rev ai_targets) /\
   forall c, c ∈ rev ai_targets <->
     exists x y, 0 <= x < 8 /\ 0 <= y < 8 /\ encode_index (x, y) = inr c).
Proof.
  assert (Hp : Permutation ai_targets (rev ai_targets))
    by (apply (bool_decide_unpack _); vm_compute; reflexivity).
  split; [exact Hp|]. apply (ai_targets_cover_board (rev ai_targets)). exact Hp.
Defined.

(** Extra X2: from any reachable state, attacking in turn a list of
    distinct coordinates, none of them a cell already attacked, raises no
    exception: every attack returns an outcome. *)
Theorem receive_attacks_distinct_unattacked (w : World) (coords : list pystr) :
  reachable w -> NoDup coords ->
  (forall coord c, coord ∈ coords -> grid w !! coord = Some c -> already_attacked c = false) ->
  exists w' os, receive_attacks coords w = (w', inr os) /\ length os = length coords.
Proof.
  intros Hr Hnd Hf. apply receive_attacks_fresh; [by apply reachable_cells_ok|done|].
  intros coord c Hin Hc. apply not_attacked_iff. exact (Hf coord c Hin Hc).
Qed.

Lemma receive_attacks_distinct_unattacked_witness :
  reachable test_world /\ NoDup [py "A1"; py "B1"; py "D7"] /\
  (forall coord c, coord ∈ [py "A1"; py "B1"; py "D7"] -> grid test_world !! coord = Some c ->
     already_attacked c = false) /\
  exists w' os, receive_attacks [py "A1"; py "B1"; py "D7"] test_world = (w', inr os) /\
                length os = length [py "A1"; py "B1"; py "D7"].
Proof.
  assert (Hr : reachable test_world).
  { change test_world with
      (fst (place_ship 1 (py "C7") PORTRAIT
             (fst (place_ship 0 (py "A1") LANDSCAPE
                    (fresh_world (<[0%nat := Ship_submarine]> (<[1%nat := Ship_destroyer]> ∅))))))).
    apply reach_place, reach_place, reach_fresh. }
  assert (Hnd : NoDup [py "A1"; py "B1"; py "D7"])
    by (apply (bool_decide_unpack _); vm_compute; reflexivity).
  assert (Hf : forall coord c, coord ∈ [py "A1"; py "B1"; py "D7"] ->
                 grid test_world !! coord = Some c -> already_attacked c = false).
  { intros coord c Hin.
    repeat (apply elem_of_cons in Hin as [->|Hin]; [vm_compute; intros H; first [discriminate H | injection H as <-; reflexivity]|]).
    by apply elem_of_nil in Hin. }
  split; [done|]. split; [done|]. split; [done|].
  apply (receive_attacks_distinct_unattacked test_world); done.
Defined.

(** Extra X3: let the human grid be reached with each ship placed at most
    once, with every cell unattacked and keyed by one of the computer's
    targets.  Then, for any shuffle of the targets, 64 computer turns raise
    nothing, leave the live-ship count at zero, and report [WIN] exactly
    when the count was positive before.  A 65th turn finds the target list
    empty and [pop] raises [IndexError]. *)
Theorem computer_turns_sink_fleet (used : gset nat) (w : World) (targets : list pystr) :
  reach_once used w -> Permutation ai_targets targets ->
  (forall k c, grid w !! k = Some c -> already_attacked c = false /\ k ∈ ai_targets) ->
  exists w' os, computer_turns 64 targets w = (w', inr (Some (os, []))) /\
    active_ship_count w' = 0 /\
    (WIN ∈ map outcome_state os <-> 0 < active_ship_count w) /\
    computer_turns 65 targets w = (w', inr None).
Proof.
  intros Hr Hp Hcells. pose proof (reach_once_inv used w Hr) as I.
  destruct (ai_targets_perm_NoDup targets Hp) as [Hnd Hlen].
  destruct (receive_attacks_sink_all used targets w I Hnd) as (w' & os & E & _ & C & Hwin).
  { intros coord c _ Hc. apply not_attacked_iff. by apply (Hcells coord c). }
  { intros k c r Hk _ _. apply (ai_targets_perm_elem targets k Hp). by apply (Hcells k c). }
  destruct (computer_turns_all targets w) as [H64 H65].
  rewrite Hlen, E in H64. rewrite Hlen, E in H65.
  exists w', os. done.
Qed.

Lemma computer_turns_sink_fleet_witness :
  reach_once ({[0%nat]} ∪ ∅) (fst (place_ship 0 (py "A1") LANDSCAPE (fresh_world two_ship_heap))) /\
  Permutation ai_targets (rev ai_targets) /\
  (forall k c, grid (fst (place_ship 0 (py "A1") LANDSCAPE (fresh_world two_ship_heap))) !! k = Some c ->
     already_attacked c = false /\ k ∈ ai_targets) /\
  exists w' os,
    computer_turns 64 (rev ai_targets) (fst (place_ship 0 (py "A1") LANDSCAPE (fresh_world two_ship_heap)))
      = (w', inr (Some (os, []))) /\
    active_ship_count w' = 0 /\
    (WIN ∈ map outcome_state os <->
     0 < active_ship_count (fst (place_ship 0 (py "A1") LANDSCAPE (fresh_world two_ship_heap)))) /\
    computer_turns 65 (rev ai_targets) (fst (place_ship 0 (py "A1") LANDSCAPE (fresh_world two_ship_heap)))
      = (w', inr None).
Proof.
  assert (Hr : reach_once ({[0%nat]} ∪ ∅)
                 (fst (place_ship 0 (py "A1") LANDSCAPE (fresh_world two_ship_heap)))).
  { change ({[0%nat]} ∪ ∅) with
      (match snd (place_ship 0 (py "A1") LANDSCAPE (fresh_world two_ship_heap)) with
       | inr _ => {[0%nat]} ∪ (∅ : gset nat) | inl _ => ∅ end).
    reach_once_tac. }
  assert (Hp : Permutation ai_targets (rev ai_targets))
    by (apply (bool_decide_unpack _); vm_compute; reflexivity).
  assert (Hf : map_Forall (fun k c => already_attacked c = false /\ k ∈ ai_targets)
                 (grid (fst (place_ship 0 (py "A1") LANDSCAPE (fresh_world two_ship_heap)))))
    by (apply (bool_decide_unpack _); vm_compute; reflexivity).
  assert (Hc : forall k c,
            grid (fst (place_ship 0 (py "A1") LANDSCAPE (fresh_world two_ship_heap))) !! k = Some c ->
            already_attacked c = false /\ k ∈ ai_targets)
    by (intros k c Hk; exact (map_Forall_lookup_1 _ _ _ _ Hf Hk)).
  split; [exact Hr|]. split; [exact Hp|]. split; [exact Hc|].
  exact (computer_turns_sink_fleet ({[0%nat]} ∪ ∅) _ (rev ai_targets) Hr Hp Hc).
Defined.

(** Extra X4: [reset] empties the grid and zeroes the live-ship count but
    leaves each ship's hits as they were: when a ship sunk before the reset
    is placed again, [active_ship_count] is 1 although the grid holds no
    live ship. *)
Theorem reset_keeps_sunk_ship (w : World) (r : nat) (s : Ship) (origin : pystr)
  (o : Orientation) :
  ships w !! r = Some s -> is_sunk s = true ->
  snd (place_ship r origin o (fst (reset w))) = inr tt ->
  active_ship_count (fst (place_ship r origin o (fst (reset w)))) = 1 /\
  live_count (fst (place_ship r origin o (fst (reset w)))) = 0%nat.
Proof.
  intros Hs Hsunk. unfold reset, modify. simpl. rewrite place_ship_eq. simpl.
  destruct (valid_coord origin); simpl; [|done].
  destruct (split_coord origin) as [e|ct]; [done|]. rewrite Hs.
  destruct (calculate_coords ct o (ship_size s)) as [e|coords]; [done|].
  destruct (first_bad_coord ∅ coords); [done|]. intros _. simpl. split; [done|].
  unfold live_count. simpl. apply size_filter_empty.
  intros i x Hx [Hpl Hns]. simpl in *.
  apply map_Exists_lookup in Hpl as (k & c & Hk & Hc).
  rewrite insert_cells_lookup, lookup_empty in Hk. case_decide; [|done].
  injection Hk as <-. simpl in Hc. injection Hc as ->. congruence.
Qed.

Lemma reset_keeps_sunk_ship_witness :
  let w := fst (receive_attacks [py "A1"; py "A2"]
                  (fst (place_ship 0 (py "A1") LANDSCAPE (fresh_world two_ship_heap)))) in
  ships w !! 0%nat = Some (Ship_hit (Ship_hit Ship_destroyer)) /\
  is_sunk (Ship_hit (Ship_hit Ship_destroyer)) = true /\
  snd (place_ship 0 (py "C3") PORTRAIT (fst (reset w))) = inr tt /\
  active_ship_count (fst (place_ship 0 (py "C3") PORTRAIT (fst (reset w)))) = 1 /\
  live_count (fst (place_ship 0 (py "C3") PORTRAIT (fst (reset w)))) = 0%nat.
Proof.
  intros w.
  assert (H1 : ships w !! 0%nat = Some (Ship_hit (Ship_hit Ship_destroyer)))
    by (vm_compute; reflexivity).
  assert (H2 : is_sunk (Ship_hit (Ship_hit Ship_destroyer)) = true) by reflexivity.
  assert (H3 : snd (place_ship 0 (py "C3") PORTRAIT (fst (reset w))) = inr tt)
    by (vm_compute; reflexivity).
  split; [done|]. split; [done|]. split; [done|].
  exact (reset_keeps_sunk_ship w 0 _ (py "C3") PORTRAIT H1 H2 H3).
Defined.

(** * Further properties: the views of [main.py] *)

Lemma py_index_lt (n : nat) (x : Z) (i : nat) : py_index n x = Some i -> (i < n)%nat.
Proof.
  unfold py_index.
  destruct ((0 <=? x) && (x <? Z.of_nat n)) eqn:E1.
  - apply andb_prop in E1 as [E1 E2]. apply Z.ltb_lt in E2. intros [= <-]. lia.
  - destruct ((- Z.of_nat n <=? x) && (x <? 0)) eqn:E2; [|done].
    apply andb_prop in E2 as [E2 E3]. apply Z.leb_le in E2. apply Z.ltb_lt in E3.
    intros [= <-]. lia.
Qed.

Lemma set_view_ok (v : list (list pystr)) (x y : Z) (i j : nat) (s : pystr) :
  view_dims v -> py_index 8 x = Some i -> py_index 8 y = Some j ->
  exists row, v !! i = Some row /\ length row = 8%nat /\
              set_view v x y s = inr (<[i := <[j := s]> row]> v).
Proof.
  intros [Hlen Hrows] Hx Hy.
  pose proof (py_index_lt _ _ _ Hx) as Hi.
  destruct (lookup_lt_is_Some_2 v i) as [row Hrow]; [lia|].
  pose proof (Forall_lookup_1 _ _ _ _ Hrows Hrow) as Hrl. simpl in Hrl.
  exists row. split; [done|]. split; [done|].
  unfold set_view, py_getitem, py_setitem. rewrite Hlen, Hx, Hrow. simpl.
  rewrite Hrl, Hy. done.
Qed.

Lemma view_dims_insert (v : list (list pystr)) (i j : nat) (row : list pystr) (s : pystr) :
  view_dims v -> length row = 8%nat -> view_dims (<[i := <[j := s]> row]> v).
Proof.
  intros [Hlen Hrows] Hrl. split; [by rewrite length_insert|].
  apply Forall_insert; [done|]. by rewrite length_insert.
Qed.

Lemma cells_single_insert (v : list (list pystr)) (i j : nat) (row : list pystr) (s : pystr) :
  cells_single v -> v !! i = Some row -> length s = 1%nat ->
  cells_single (<[i := <[j := s]> row]> v).
Proof.
  intros Hc Hrow Hs. apply Forall_insert; [done|].
  apply Forall_insert; [|done]. exact (Forall_lookup_1 _ _ _ _ Hc Hrow).
Qed.

Lemma view_at_insert (v : list (list pystr)) (i j i' j' : nat) (row : list pystr) (s : pystr) :
  v !! i = Some row -> (j < length row)%nat ->
  view_at (<[i := <[j := s]> row]> v) i' j' =
  if decide ((i', j') = (i, j)) then Some s else view_at v i' j'.
Proof.
  intros Hrow Hj. unfold view_at.
  assert (Hi : (i < length v)%nat) by (apply lookup_lt_is_Some_1; by eexists).
  destruct (decide (i' = i)) as [->|Hne].
  - rewrite list_lookup_insert, decide_True by done. simpl. rewrite Hrow. simpl.
    rewrite list_lookup_insert.
    destruct (decide (j' = j)) as [->|Hj'].
    + rewrite !decide_True by done. done.
    + rewrite (decide_False (P := j = j' /\ _)) by (intros [? _]; congruence).
      rewrite decide_False by congruence. done.
  - rewrite list_lookup_insert_ne by congruence. rewrite decide_False by congruence. done.
Qed.

Lemma index_single (l d : Z) :
  48 <= d <= 57 -> coord_tuple_to_index_tuple ([l], [d]) = inr (l - 65, d - 49).
Proof.
  intros Hd. unfold coord_tuple_to_index_tuple, py_int. simpl.
  destruct (Z.eqb_spec d 45); [lia|]. destruct (Z.eqb_spec d 43); [lia|].
  unfold digit_value. rewrite (proj2 (Z.leb_le 48 d) ltac:(lia)), (proj2 (Z.leb_le d 57) ltac:(lia)).
  simpl. do 2 f_equal; lia.
Qed.

(** What [valid_coord] accepts: a letter A-H, a digit 0-8 and maybe a
    final newline. *)
Lemma valid_coord_shape (k : pystr) :
  valid_coord k = true ->
  exists l d, 65 <= l <= 72 /\ 48 <= d <= 56 /\ (k = [l; d] \/ k = [l; d; 10]) /\
              split_coord k = inr ([l], [d]).
Proof.
  unfold valid_coord, split_coord, coord_regex_search, is_A_H, is_0_8.
  destruct k as [|l [|d [|n [|x t]]]]; try done.
  - destruct ((65 <=? l) && (l <=? 72) && ((48 <=? d) && (d <=? 56))) eqn:E; [|done].
    intros _. repeat (apply andb_prop in E as [E ?]). exists l, d.
    repeat split; try lia; auto.
  - destruct ((65 <=? l) && (l <=? 72) && ((48 <=? d) && (d <=? 56)) && (n =? 10)) eqn:E; [|done].
    intros _. repeat (apply andb_prop in E as [E ?]). apply Z.eqb_eq in H. subst n.
    exists l, d. repeat split; try lia; auto.
Qed.

Lemma valid_key_pos (k : pystr) :
  valid_coord k = true ->
  exists l d, 65 <= l <= 72 /\ 48 <= d <= 56 /\ (k = [l; d] \/ k = [l; d; 10]) /\
    split_coord k = inr ([l], [d]) /\
    coord_tuple_to_index_tuple ([l], [d]) = inr (l - 65, d - 49) /\
    py_index 8 (l - 65) = Some (Z.to_nat (l - 65)) /\
    py_index 8 (d - 49) = Some (if d =? 48 then 7%nat else Z.to_nat (d - 49)) /\
    view_pos k = Some (Z.to_nat (l - 65), if d =? 48 then 7%nat else Z.to_nat (d - 49)).
Proof.
  intros Hv. destruct (valid_coord_shape k Hv) as (l & d & Hl & Hd & Hk & Hs).
  assert (Hi : coord_tuple_to_index_tuple ([l], [d]) = inr (l - 65, d - 49))
    by (apply index_single; lia).
  assert (Hx : py_index 8 (l - 65) = Some (Z.to_nat (l - 65))).
  { unfold py_index. rewrite (proj2 (Z.leb_le 0 (l - 65)) ltac:(lia)).
    by rewrite (proj2 (Z.ltb_lt (l - 65) (Z.of_nat 8)) ltac:(lia)). }
  assert (Hy : py_index 8 (d - 49) = Some (if d =? 48 then 7%nat else Z.to_nat (d - 49))).
  { unfold py_index. destruct (Z.eqb_spec d 48) as [->|Hne].
    - reflexivity.
    - rewrite (proj2 (Z.leb_le 0 (d - 49)) ltac:(lia)).
      by rewrite (proj2 (Z.ltb_lt (d - 49) (Z.of_nat 8)) ltac:(lia)). }
  exists l, d. do 7 (split; [done|]).
  unfold view_pos, decode_coord. rewrite Hs. simpl sbind. rewrite Hi, Hx, Hy. done.
Qed.

Lemma spec_valid_valid (k : pystr) : spec_valid_coord k = true -> valid_coord k = true.
Proof.
  destruct k as [|l [|d [|x t]]]; try done. simpl.
  unfold valid_coord, coord_regex_search, is_0_8.
  intros H. apply andb_prop in H as [H H2]. apply andb_prop in H as [H1 H3].
  rewrite H1. apply Z.leb_le in H2, H3. simpl.
  by rewrite (proj2 (Z.leb_le 48 d) ltac:(lia)), (proj2 (Z.leb_le d 56) ltac:(lia)).
Qed.

(** The key of a one-letter, one-digit (1-8) coordinate is determined by
    its cell. *)
Lemma spec_valid_pos (k : pystr) (i j : nat) :
  spec_valid_coord k = true -> view_pos k = Some (i, j) ->
  (i < 8)%nat /\ (j < 8)%nat /\ k = [65 + Z.of_nat i; 49 + Z.of_nat j].
Proof.
  intros Hs. destruct (valid_key_pos k (spec_valid_valid k Hs))
    as (l & d & Hl & Hd & Hk & _ & _ & _ & _ & Hp).
  rewrite Hp. intros [= <- <-].
  destruct Hk as [-> | ->]; [|done].
  simpl in Hs. apply andb_prop in Hs as [Hs Hd2]. apply andb_prop in Hs as [_ Hd1].
  apply Z.leb_le in Hd1, Hd2.
  rewrite (proj2 (Z.eqb_neq d 48) ltac:(lia)).
  repeat split; try lia. f_equal; [lia|]. f_equal; lia.
Qed.

Lemma miss_not_hit (c : GridSpace) : is_miss c = true -> is_hit c = false.
Proof.
  unfold is_miss, is_hit. intros H. apply String.eqb_eq in H. by rewrite H.
Qed.

Lemma create_target_view_loop_eq (g : gmap pystr GridSpace) (keys : list pystr) :
  forall view, create_target_view_loop g keys view = view_loop target_mark g keys view.
Proof.
  induction keys as [|coord rest IH]; intros view; [done|].
  cbn [create_target_view_loop view_loop].
  destruct (g !! coord) as [c|]; [|done].
  destruct (split_coord coord) as [e|ct]; [done|]. cbn [vbind vlift].
  destruct (coord_tuple_to_index_tuple ct) as [e|[x y]]; [done|]. cbn [vbind vlift].
  assert (Hmk : target_mark c = inr (if is_miss c then Some (py "O")
                                     else if is_hit c then Some (py "X") else None))
    by reflexivity.
  rewrite Hmk. cbn [vbind]. destruct (is_miss c) eqn:Hm.
  - rewrite (miss_not_hit c Hm). destruct (set_view view x y (py "O")); cbn [vbind]; auto.
  - destruct (is_hit c); cbn [vbind]; [|apply IH].
    destruct (set_view view x y (py "X")); cbn [vbind]; auto.
Qed.

Lemma create_fleet_view_loop_eq (w : World) (keys : list pystr) :
  forall view, create_fleet_view_loop w keys view = view_loop (fleet_mark w) (grid w) keys view.
Proof.
  induction keys as [|coord rest IH]; intros view; [done|]. simpl.
  destruct (grid w !! coord) as [c|]; [|done].
  destruct (split_coord coord) as [e|ct]; [done|]. simpl.
  destruct (coord_tuple_to_index_tuple ct) as [e|[x y]]; [done|]. simpl.
  unfold fleet_mark.
  destruct (is_miss c); [simpl; destruct (set_view _ _ _ _); simpl; auto|].
  destruct (is_hit c); [simpl; destruct (set_view _ _ _ _); simpl; auto|].
  destruct (gs_ship c) as [r|]; [|apply IH].
  destruct (ships w !! r) as [s|]; [|done]. simpl.
  destruct (set_view _ _ _ _); simpl; auto.
Qed.

(** One step of the view loop on a valid key whose cell is marked. *)
Lemma view_loop_cons (mark : GridSpace -> ViewErr + option pystr) (g : gmap pystr GridSpace)
  (k : pystr) (rest : list pystr) (view : list (list pystr)) (c : GridSpace)
  (m : option pystr) :
  view_dims view -> valid_coord k = true -> g !! k = Some c -> mark c = inr m ->
  exists i j, view_pos k = Some (i, j) /\
    match m with
    | Some s => exists row, view !! i = Some row /\ length row = 8%nat /\
                  view_loop mark g (k :: rest) view =
                  view_loop mark g rest (<[i := <[j := s]> row]> view)
    | None => view_loop mark g (k :: rest) view = view_loop mark g rest view
    end.
Proof.
  intros Hd Hv Hc Hm.
  destruct (valid_key_pos k Hv) as (l & d & _ & _ & _ & Hs & Hi & Hx & Hy & Hp).
  eexists _, _. split; [exact Hp|]. simpl. rewrite Hc, Hs. simpl. rewrite Hi. simpl.
  rewrite Hm. simpl. destruct m as [s|]; [|done].
  destruct (set_view_ok view (l - 65) (d - 49) _ _ s Hd Hx Hy) as (row & Hrow & Hrl & E).
  exists row. rewrite E. done.
Qed.

Lemma view_loop_ok (mark : GridSpace -> ViewErr + option pystr) (g : gmap pystr GridSpace)
  (keys : list pystr) : forall view,
  view_dims view -> Forall (fun k => valid_coord k = true) keys ->
  (forall k, k ∈ keys -> exists c m, g !! k = Some c /\ mark c = inr m) ->
  exists view', view_loop mark g keys view = inr view' /\ view_dims view' /\
    (cells_single view ->
     (forall k c s, k ∈ keys -> g !! k = Some c -> mark c = inr (Some s) -> length s = 1%nat) ->
     cells_single view').
Proof.
  induction keys as [|k rest IH]; intros view Hd Hv Hm.
  - exists view. done.
  - apply Forall_cons in Hv as [Hk Hv].
    destruct (Hm k ltac:(left)) as (c & m & Hc & Hmc).
    destruct (view_loop_cons mark g k rest view c m Hd Hk Hc Hmc) as (i & j & _ & Hstep).
    assert (Hm' : forall k', k' ∈ rest -> exists c m, g !! k' = Some c /\ mark c = inr m)
      by (intros k' Hk'; apply Hm; by right).
    destruct m as [s|].
    + destruct Hstep as (row & Hrow & Hrl & ->).
      destruct (IH _ (view_dims_insert view i j row s Hd Hrl) Hv Hm') as (v' & E & Hd' & Hs').
      exists v'. split; [done|]. split; [done|]. intros Hsingle Hlen.
      apply Hs'; [|intros k' c' s' Hk'; apply Hlen; by right].
      apply cells_single_insert; [done|done|]. by apply (Hlen k c s); [left| |].
    + rewrite Hstep.
      destruct (IH view Hd Hv Hm') as (v' & E & Hd' & Hs').
      exists v'. split; [done|]. split; [done|]. intros Hsingle Hlen.
      apply Hs'; [done|]. intros k' c' s' Hk'. apply Hlen. by right.
Qed.

Lemma view_loop_content (mark : GridSpace -> ViewErr + option pystr) (g : gmap pystr GridSpace)
  (keys : list pystr) : forall view view',
  view_dims view -> Forall (fun k => valid_coord k = true) keys ->
  view_loop mark g keys view = inr view' ->
  (forall k c s i j, k ∈ keys -> (forall k', k' ∈ keys -> view_pos k' = view_pos k -> k' = k) ->
     g !! k = Some c -> mark c = inr (Some s) -> view_pos k = Some (i, j) ->
     view_at view' i j = Some s) /\
  (forall i j, (forall k c s, k ∈ keys -> view_pos k = Some (i, j) -> g !! k = Some c ->
                 mark c <> inr (Some s)) ->
     view_at view' i j = view_at view i j).
Proof.
  induction keys as [|k0 rest IH]; intros view view' Hd Hv E.
  - injection E as <-. split; [|done]. intros k c s i j Hk. by apply elem_of_nil in Hk.
  - apply Forall_cons in Hv as [Hk0 Hv].
    assert (Hc0 : exists c0, g !! k0 = Some c0)
      by (simpl in E; destruct (g !! k0); [by eexists|done]).
    destruct Hc0 as [c0 Hc0].
    assert (Hm0 : exists m0, mark c0 = inr m0).
    { destruct (valid_key_pos k0 Hk0) as (l & d & _ & _ & _ & Hs & Hi & _).
      simpl in E. rewrite Hc0, Hs in E. simpl in E. rewrite Hi in E. simpl in E.
      destruct (mark c0); [done|by eexists]. }
    destruct Hm0 as [m0 Hm0].
    destruct (view_loop_cons mark g k0 rest view c0 m0 Hd Hk0 Hc0 Hm0) as (i0 & j0 & Hp0 & Hstep).
    destruct m0 as [s0|].
    + destruct Hstep as (row & Hrow & Hrl & Hstep). rewrite Hstep in E.
      destruct (IH _ _ (view_dims_insert view i0 j0 row s0 Hd Hrl) Hv E) as [IHa IHb].
      assert (Hj0 : (j0 < length row)%nat).
      { rewrite Hrl. unfold view_pos in Hp0.
        destruct (decode_coord k0) as [|[x y]]; [done|].
        destruct (py_index 8 x); [|done]. destruct (py_index 8 y) as [j|] eqn:Hy; [|done].
        injection Hp0 as _ <-. by apply (py_index_lt 8 y). }
      split.
      * intros k c s i j Hk Huniq Hc Hm Hp. apply elem_of_cons in Hk as [->|Hk].
        -- destruct (decide (k0 ∈ rest)) as [Hin|Hnin].
           ++ apply (IHa k0 c s i j Hin); [intros k' Hk'; apply Huniq; by right|done|done|done].
           ++ rewrite Hc0 in Hc. injection Hc as <-. rewrite Hm0 in Hm. injection Hm as <-.
              rewrite IHb.
              ** rewrite view_at_insert by done. rewrite Hp0 in Hp. injection Hp as -> ->.
                 by rewrite decide_True.
              ** intros k' c' s' Hk' Hp' _ _. rewrite <- Hp in Hp'.
                 apply Huniq in Hp'; [|by right]. subst k'. done.
        -- apply (IHa k c s i j Hk); [intros k' Hk'; apply Huniq; by right|done|done|done].
      * intros i j Hno. rewrite IHb; [|intros k c s Hk; apply Hno; by right].
        rewrite view_at_insert by done. rewrite decide_False; [done|].
        intros [= -> ->]. by apply (Hno k0 c0 s0); [left| | |].
    + rewrite Hstep in E. destruct (IH _ _ Hd Hv E) as [IHa IHb]. split.
      * intros k c s i j Hk Huniq Hc Hm Hp. apply elem_of_cons in Hk as [->|Hk].
        -- rewrite Hc0 in Hc. injection Hc as <-. congruence.
        -- apply (IHa k c s i j Hk); [intros k' Hk'; apply Huniq; by right|done|done|done].
      * intros i j Hno. apply IHb. intros k c s Hk. apply Hno. by right.
Qed.

(** The first key refused by [valid_coord] stops the loop with
    [InvalidCoord]. *)
Lemma view_loop_first_invalid (mark : GridSpace -> ViewErr + option pystr)
  (g : gmap pystr GridSpace) (keys : list pystr) : forall view,
  view_dims view ->
  (forall k, k ∈ keys -> exists c m, g !! k = Some c /\ mark c = inr m) ->
  match list_find (fun k => valid_coord k = false) keys with
  | Some (_, k) => view_loop mark g keys view = inl (ViewExc (InvalidCoord k))
  | None => exists view', view_loop mark g keys view = inr view' /\ view_dims view'
  end.
Proof.
  induction keys as [|k rest IH]; intros view Hd Hm; [by exists view|].
  destruct (Hm k ltac:(left)) as (c & m & Hc & Hmc).
  assert (Hm' : forall k', k' ∈ rest -> exists c m, g !! k' = Some c /\ mark c = inr m)
    by (intros k' Hk'; apply Hm; by right).
  simpl list_find. case_decide as Hk.
  - simpl. rewrite Hc. unfold valid_coord in Hk. unfold split_coord.
    destruct (coord_regex_search k); done.
  - apply not_false_is_true in Hk.
    destruct (view_loop_cons mark g k rest view c m Hd Hk Hc Hmc) as (i & j & _ & Hstep).
    destruct m as [s|].
    + destruct Hstep as (row & Hrow & Hrl & ->).
      specialize (IH _ (view_dims_insert view i j row s Hd Hrl) Hm').
      destruct (list_find _ rest) as [[n k']|]; done.
    + rewrite Hstep. specialize (IH view Hd Hm').
      destruct (list_find _ rest) as [[n k']|]; done.
Qed.

Lemma blank_view_dims : view_dims (blank_view grid_dimension).
Proof. split; [reflexivity|]. repeat constructor. Qed.

Lemma blank_view_single : cells_single (blank_view grid_dimension).
Proof. repeat constructor. Qed.

Lemma blank_view_at (i j : nat) :
  (i < 8)%nat -> (j < 8)%nat -> view_at (blank_view grid_dimension) i j = Some (py "_").
Proof.
  intros Hi Hj.
  do 8 (destruct i as [|i]; [do 8 (destruct j as [|j]; [reflexivity|]); lia|]). lia.
Qed.

(** On keys of one letter and one digit 1-8, the loop draws each key's
    mark on its own cell and leaves the other cells blank. *)
Lemma view_loop_board (mark : GridSpace -> ViewErr + option pystr) (g : gmap pystr GridSpace)
  (keys : list pystr) :
  dict_keys g keys -> Forall (fun k => spec_valid_coord k = true) keys ->
  (forall k c, g !! k = Some c -> exists m, mark c = inr m) ->
  exists view, view_loop mark g keys (blank_view grid_dimension) = inr view /\
    view_dims view /\
    forall i j, (i < 8)%nat -> (j < 8)%nat ->
      view_at view i j =
      Some (match g !! [65 + Z.of_nat i; 49 + Z.of_nat j] with
            | Some c => match mark c with inr (Some s) => s | _ => py "_" end
            | None => py "_"
            end).
Proof.
  intros [Hnd Hkeys] Hs Hm.
  assert (Hv : Forall (fun k => valid_coord k = true) keys).
  { eapply Forall_impl; [exact Hs|]. intros k. apply spec_valid_valid. }
  destruct (view_loop_ok mark g keys _ blank_view_dims Hv) as (view & E & Hd & _).
  { intros k Hk. apply Hkeys in Hk as [c Hc]. destruct (Hm k c Hc) as [m Hmc]. eauto. }
  destruct (view_loop_content mark g keys _ _ blank_view_dims Hv E) as [Ha Hb].
  exists view. split; [done|]. split; [done|]. intros i j Hi Hj.
  rewrite Forall_forall in Hs.
  assert (Hpos : forall k, k ∈ keys -> view_pos k = Some (i, j) ->
                   k = [65 + Z.of_nat i; 49 + Z.of_nat j]).
  { intros k Hk Hp. by destruct (spec_valid_pos k i j (Hs k Hk) Hp) as (_ & _ & ->). }
  assert (Hp_enc : view_pos [65 + Z.of_nat i; 49 + Z.of_nat j] = Some (i, j)).
  { assert (Hsv : spec_valid_coord [65 + Z.of_nat i; 49 + Z.of_nat j] = true).
    { simpl. unfold is_A_H.
      rewrite (proj2 (Z.leb_le 65 (65 + Z.of_nat i)) ltac:(lia)).
      rewrite (proj2 (Z.leb_le (65 + Z.of_nat i) 72) ltac:(lia)).
      rewrite (proj2 (Z.leb_le 49 (49 + Z.of_nat j)) ltac:(lia)).
      by rewrite (proj2 (Z.leb_le (49 + Z.of_nat j) 56) ltac:(lia)). }
    destruct (valid_key_pos _ (spec_valid_valid _ Hsv))
      as (l & d & _ & _ & Hk & _ & _ & _ & _ & Hp).
    rewrite Hp. destruct Hk as [Hk|Hk]; [|done]. injection Hk as <- <-.
    rewrite (proj2 (Z.eqb_neq (49 + Z.of_nat j) 48) ltac:(lia)). do 2 f_equal; lia. }
  destruct (g !! [65 + Z.of_nat i; 49 + Z.of_nat j]) as [c|] eqn:Hc.
  - assert (Hin : [65 + Z.of_nat i; 49 + Z.of_nat j] ∈ keys) by (apply Hkeys; by eexists).
    destruct (Hm _ _ Hc) as [[s|] Hmc]; rewrite Hmc.
    + apply (Ha _ c s i j Hin); [|done|done|done].
      intros k' Hk' Hp'. rewrite Hp_enc in Hp'. by apply Hpos.
    + rewrite Hb; [by apply blank_view_at|]. intros k c' s Hk Hp Hc'.
      rewrite (Hpos k Hk Hp), Hc in Hc'. injection Hc' as <-. by rewrite Hmc.
  - rewrite Hb; [by apply blank_view_at|]. intros k c' s Hk Hp Hc'.
    rewrite (Hpos k Hk Hp), Hc in Hc'. done.
Qed.

(** Extra X5: given the keys of the grid in iteration order,
    [create_target_view] raises [InvalidCoord] for the first key that
    [valid_coord] refuses (such a key is stored by [receive_attack], which
    records a miss under any string); when there is none it returns a view
    of eight rows of eight cells. *)
Theorem create_target_view_first_invalid (player : World) (keys : list pystr) :
  dict_keys (grid player) keys ->
  match list_find (fun k => valid_coord k = false) keys with
  | Some (_, k) => create_target_view player keys = inl (ViewExc (InvalidCoord k))
  | None => exists view, create_target_view player keys = inr view /\ view_dims view
  end.
Proof.
  intros [_ Hk]. unfold create_target_view. rewrite create_target_view_loop_eq.
  apply view_loop_first_invalid; [apply blank_view_dims|].
  intros k Hin. apply Hk in Hin as [c Hc]. exists c. by eexists.
Qed.

Lemma create_target_view_first_invalid_witness :
  let w := fst (receive_attack (py "hello") test_world) in
  dict_keys (grid w) (map_to_list (grid w)).*1 /\
  create_target_view w (map_to_list (grid w)).*1 = inl (ViewExc (InvalidCoord (py "hello"))).
Proof.
  intros w. split; [apply dict_keys_map_to_list|].
  pose proof (create_target_view_first_invalid w _ (dict_keys_map_to_list (grid w))) as H.
  assert (E : list_find (fun k => valid_coord k = false) (map_to_list (grid w)).*1
              = Some (0%nat, py "hello")) by (vm_compute; reflexivity).
  rewrite E in H. exact H.
Defined.

(** Extra X6: when the keys of the grid are coordinates of one letter A-H
    and one digit 1-8, [create_target_view] returns an eight-by-eight view
    whose cell in row [i], column [j] is "O" if the grid space of letter
    [i] and digit [j + 1] is a miss, "X" if it is a hit, and "_" otherwise
    or when there is no such grid space. *)
Theorem create_target_view_board (player : World) (keys : list pystr) :
  dict_keys (grid player) keys -> Forall (fun k => spec_valid_coord k = true) keys ->
  exists view, create_target_view player keys = inr view /\ view_dims view /\
    forall i j, (i < 8)%nat -> (j < 8)%nat ->
      view_at view i j =
      Some (match grid player !! [65 + Z.of_nat i; 49 + Z.of_nat j] with
            | Some c => if is_miss c then py "O" else if is_hit c then py "X" else py "_"
            | None => py "_"
            end).
Proof.
  intros Hd Hs. unfold create_target_view. rewrite create_target_view_loop_eq.
  destruct (view_loop_board target_mark (grid player) keys Hd Hs) as (view & E & Hdim & Hat).
  { intros k c _. by eexists. }
  exists view. split; [done|]. split; [done|]. intros i j Hi Hj. rewrite (Hat i j Hi Hj).
  destruct (grid player !! _) as [c|]; [|done]. unfold target_mark.
  by destruct (is_miss c), (is_hit c).
Qed.

Lemma create_target_view_board_witness :
  let w := fst (receive_attack (py "A2") (fst (receive_attack (py "B5") test_world))) in
  dict_keys (grid w) (map_to_list (grid w)).*1 /\
  Forall (fun k => spec_valid_coord k = true) (map_to_list (grid w)).*1 /\
  exists view, create_target_view w (map_to_list (grid w)).*1 = inr view /\
    view_at view 0 1 = Some (py "X") /\ view_at view 1 4 = Some (py "O") /\
    view_at view 0 0 = Some (py "_").
Proof.
  intros w.
  assert (Hs : Forall (fun k => spec_valid_coord k = true) (map_to_list (grid w)).*1)
    by (apply (bool_decide_unpack _); vm_compute; reflexivity).
  split; [apply dict_keys_map_to_list|]. split; [exact Hs|].
  destruct (create_target_view_board w _ (dict_keys_map_to_list (grid w)) Hs)
    as (view & E & _ & Hat).
  exists view. split; [exact E|].
  rewrite (Hat 0%nat 1%nat), (Hat 1%nat 4%nat), (Hat 0%nat 0%nat) by lia.
  vm_compute. repeat split.
Defined.

(** Extra X7: in a reachable state whose grid keys are coordinates of one
    letter A-H and one digit 1-8, [create_fleet_view] returns an
    eight-by-eight view whose cell in row [i], column [j] is "O" for a
    miss, "X" for a hit, the code of the ship for a grid space holding a
    ship not yet attacked, and "_" where there is no grid space. *)
Theorem create_fleet_view_board (player : World) (keys : list pystr) :
  reachable player ->
  dict_keys (grid player) keys -> Forall (fun k => spec_valid_coord k = true) keys ->
  exists view, create_fleet_view player keys = inr view /\ view_dims view /\
    forall i j, (i < 8)%nat -> (j < 8)%nat ->
      view_at view i j =
      Some (match grid player !! [65 + Z.of_nat i; 49 + Z.of_nat j] with
            | Some c =>
                if is_miss c then py "O" else if is_hit c then py "X"
                else match gs_ship c ≫= fun r => ships player !! r with
                     | Some s => py (code s)
                     | None => py "_"
                     end
            | None => py "_"
            end).
Proof.
  intros Hr Hd Hs. pose proof (reachable_cells_ok player Hr) as Hok.
  unfold create_fleet_view. rewrite create_fleet_view_loop_eq.
  destruct (view_loop_board (fleet_mark player) (grid player) keys Hd Hs)
    as (view & E & Hdim & Hat).
  { intros k c Hc. unfold fleet_mark.
    destruct (is_miss c); [by eexists|]. destruct (is_hit c); [by eexists|].
    destruct (Hok k c Hc) as [_ [[-> _] | (r & -> & [s Hsr] & _)]]; [by eexists|].
    rewrite Hsr. by eexists. }
  exists view. split; [done|]. split; [done|]. intros i j Hi Hj. rewrite (Hat i j Hi Hj).
  destruct (grid player !! _) as [c|] eqn:Hc; [|done]. unfold fleet_mark.
  destruct (is_miss c); [done|]. destruct (is_hit c); [done|].
  destruct (gs_ship c) as [r|]; [|done]. simpl. by destruct (ships player !! r).
Qed.

Lemma create_fleet_view_board_witness :
  let w := fst (receive_attack (py "A2") (fst (receive_attack (py "B5") test_world))) in
  reachable w /\
  dict_keys (grid w) (map_to_list (grid w)).*1 /\
  Forall (fun k => spec_valid_coord k = true) (map_to_list (grid w)).*1 /\
  exists view, create_fleet_view w (map_to_list (grid w)).*1 = inr view /\
    view_at view 0 0 = Some (py (code Ship_submarine)) /\ view_at view 0 1 = Some (py "X") /\
    view_at view 1 4 = Some (py "O") /\ view_at view 7 7 = Some (py "_").
Proof.
  intros w.
  assert (Hr : reachable w).
  { apply reach_attack, reach_attack. unfold test_world.
    change (reachable (fst (place_ship 1 (py "C7") PORTRAIT
      (fst (place_ship 0 (py "A1") LANDSCAPE
        (fresh_world (<[0%nat := Ship_submarine]> (<[1%nat := Ship_destroyer]> ∅)))))))).
    apply reach_place, reach_place, reach_fresh. }
  assert (Hs : Forall (fun k => spec_valid_coord k = true) (map_to_list (grid w)).*1)
    by (apply (bool_decide_unpack _); vm_compute; reflexivity).
  split; [exact Hr|]. split; [apply dict_keys_map_to_list|]. split; [exact Hs|].
  destruct (create_fleet_view_board w _ Hr (dict_keys_map_to_list (grid w)) Hs)
    as (view & E & _ & Hat).
  exists view. split; [exact E|].
  rewrite (Hat 0%nat 0%nat), (Hat 0%nat 1%nat), (Hat 1%nat 4%nat), (Hat 7%nat 7%nat) by lia.
  vm_compute. repeat split.
Defined.

(** Extra X8: [valid_coord] accepts the digit 0, and the views index with
    [int(digit) - 1 = -1], which Python reads from the end of the row: a
    miss stored under letter [l] and digit 0 is drawn as "O" in the last
    column of row [l], provided no other key of the grid falls on that
    cell. *)
Theorem create_target_view_column_zero (player : World) (keys : list pystr) (l : Z)
  (c : GridSpace) :
  dict_keys (grid player) keys -> Forall (fun k => valid_coord k = true) keys ->
  65 <= l <= 72 -> grid player !! [l; 48] = Some c -> is_miss c = true ->
  (forall k, k ∈ keys -> view_pos k = Some (Z.to_nat (l - 65), 7%nat) -> k = [l; 48]) ->
  exists view, create_target_view player keys = inr view /\
    view_at view (Z.to_nat (l - 65)) 7 = Some (py "O").
Proof.
  intros [Hnd Hkeys] Hv Hl Hc Hmiss Huniq.
  unfold create_target_view. rewrite create_target_view_loop_eq.
  destruct (view_loop_ok target_mark (grid player) keys _ blank_view_dims Hv)
    as (view & E & _ & _).
  { intros k Hk. apply Hkeys in Hk as [c' Hc']. exists c'. by eexists. }
  destruct (view_loop_content target_mark (grid player) keys _ _ blank_view_dims Hv E)
    as [Ha _].
  exists view. split; [done|].
  assert (Hin : [l; 48] ∈ keys) by (apply Hkeys; by eexists).
  assert (Hp : view_pos [l; 48] = Some (Z.to_nat (l - 65), 7%nat)).
  { assert (Hv0 : valid_coord [l; 48] = true).
    { rewrite Forall_forall in Hv. by apply Hv. }
    destruct (valid_key_pos _ Hv0) as (l' & d & _ & _ & Hk & _ & _ & _ & _ & Hp).
    destruct Hk as [Hk|Hk]; [|done]. injection Hk as <- <-. exact Hp. }
  apply (Ha [l; 48] c); [done| |done| |done].
  - intros k' Hk' Hp'. rewrite Hp in Hp'. by apply Huniq.
  - unfold target_mark. by rewrite Hmiss.
Qed.

Lemma create_target_view_column_zero_witness :
  let w := fst (receive_attack (py "A0") test_world) in
  exists c, grid w !! [65; 48] = Some c /\
  dict_keys (grid w) (map_to_list (grid w)).*1 /\
  Forall (fun k => valid_coord k = true) (map_to_list (grid w)).*1 /\
  exists view, create_target_view w (map_to_list (grid w)).*1 = inr view /\
    view_at view 0 7 = Some (py "O").
Proof.
  intros w.
  assert (Hc : grid w !! [65; 48] = Some (mkGridSpace OwnerPlayer [65; 48] None "miss"))
    by (vm_compute; reflexivity).
  assert (Hv : Forall (fun k => valid_coord k = true) (map_to_list (grid w)).*1)
    by (apply (bool_decide_unpack _); vm_compute; reflexivity).
  eexists. split; [exact Hc|]. split; [apply dict_keys_map_to_list|]. split; [exact Hv|].
  apply (create_target_view_column_zero w _ 65 _ (dict_keys_map_to_list (grid w)) Hv
           ltac:(lia) Hc eq_refl).
  assert (Hu : Forall (fun k => view_pos k = Some (0%nat, 7%nat) -> k = [65; 48])
                (map_to_list (grid w)).*1)
    by (apply (bool_decide_unpack _); vm_compute; reflexivity).
  rewrite Forall_forall in Hu. exact Hu.
Defined.

Lemma py_join_single_length (sep : pystr) (p : pystr) (rest : list pystr) :
  length p = 1%nat -> Forall (fun q => length q = 1%nat) rest ->
  length (py_join sep (p :: rest)) = (1 + length rest * (length sep + 1))%nat.
Proof.
  intros Hp Hr. cbn [py_join]. rewrite length_app, Hp. f_equal.
  induction Hr as [|q rest' Hq _ IH]; [done|]. cbn [flat_map].
  rewrite length_app, length_app, IH, Hq. cbn [length]. lia.
Qed.
Lemma print_rows_ok (view : list (list pystr)) : forall (n : Z),
  0 <= n -> n + 65 + Z.of_nat (length view) <= 1114112 ->
  Forall (fun row => length row = 8%nat /\ Forall (fun c => length c = 1%nat) row) view ->
  exists rows, print_rows view n = inr rows /\ length rows = length view /\
    Forall (fun line => length line = 30%nat) rows /\
    forall i, (i < length view)%nat -> exists rest, rows !! i = Some (n + 65 + Z.of_nat i :: rest).
Proof.
  induction view as [|row view IH]; intros n Hn Hb Hf.
  - exists []. split; [done|]. split; [done|]. split; [done|]. simpl. lia.
  - apply Forall_cons in Hf as [[Hl Hc] Hf]. cbn [length] in Hb.
    destruct (IH (n + 1) ltac:(lia) ltac:(lia) Hf) as (rows & E & Hlen & Hall & Hhead).
    cbn [print_rows]. unfold convert_index_to_label, py_chr.
    rewrite (proj2 (Z.leb_le 0 (n + 65)) ltac:(lia)).
    rewrite (proj2 (Z.ltb_lt (n + 65) 1114112)) by lia. cbn [andb sbind]. rewrite E. cbn [sbind].
    eexists. split; [reflexivity|]. split; [cbn [length]; lia|]. split.
    + constructor; [|done]. destruct row as [|p rest]; [done|].
      apply Forall_cons in Hc as [Hp Hc].
      rewrite length_app, length_app, length_app, py_join_single_length by done.
      cbn [length] in Hl. injection Hl as Hl. rewrite Hl. reflexivity.
    + intros [|i] Hi.
      * change (Z.of_nat 0) with 0. rewrite Z.add_0_r. eexists. reflexivity.
      * cbn [length] in Hi. destruct (Hhead i ltac:(lia)) as [rest Hr].
        exists rest. change ((_ :: rows) !! S i) with (rows !! i). rewrite Hr. f_equal. f_equal. lia.
Qed.

Lemma print_view_shape (view : list (list pystr)) :
  Forall (fun row => length row = 8%nat /\ Forall (fun c => length c = 1%nat) row) view ->
  65 + Z.of_nat (length view) <= 1114112 ->
  exists lines, print_view view grid_dimension = inr lines /\
    length lines = (length view + 3)%nat /\
    Forall (fun line => length line = 30%nat) lines /\
    lines !! 0%nat = Some (py "     1  2  3  4  5  6  7  8   ") /\
    lines !! 1%nat = Some grid_horizontal_edge /\
    lines !! (length view + 2)%nat = Some grid_horizontal_edge /\
    forall i, (i < length view)%nat ->
      exists rest, lines !! (i + 2)%nat = Some (65 + Z.of_nat i :: rest).
Proof.
  intros Hf Hb.
  destruct (print_rows_ok view 0 ltac:(lia) ltac:(lia) Hf) as (rows & E & Hlen & Hall & Hhead).
  unfold print_view, grid_dimension. rewrite E. cbn [sbind].
  assert (Hh : py "     " ++ py_join (py "  ") (map (fun i => py_str_int (i + 1)) (zrange 0 (Z.to_nat 8)))
               ++ py "   " = py "     1  2  3  4  5  6  7  8   ") by reflexivity.
  rewrite Hh. eexists. split; [reflexivity|].
  split; [rewrite length_app, length_app; cbn [length]; lia|].
  split; [|split; [done|split; [done|split]]].
  - constructor; [reflexivity|]. constructor; [reflexivity|].
    apply Forall_app. split; [done|]. constructor; [reflexivity|done].
  - rewrite lookup_app_r; [cbn [length]|cbn [length]; lia].
    rewrite lookup_app_r by lia. rewrite Hlen.
    by replace (length view + 2 - 2 - length view)%nat with 0%nat by lia.
  - intros i Hi. destruct (Hhead i Hi) as [rest Hr]. exists rest.
    rewrite lookup_app_r; [cbn [length]|cbn [length]; lia].
    rewrite lookup_app_l by lia.
    replace (i + 2 - 2)%nat with i by lia. rewrite Hr. done.
Qed.

(** Extra X9: [print_view] lays out a view whose rows each hold eight
    one-character cells as the header of column numbers 1 to 8, an edge,
    one line per row starting with the row's letter (A for the first row,
    then in character order), and a closing edge: [len(view) + 3] lines of
    30 characters. [chr] bounds the number of rows. *)
Theorem print_view_layout (view : list (list pystr)) :
  Forall (fun row => length row = 8%nat /\ Forall (fun c => length c = 1%nat) row) view ->
  65 + Z.of_nat (length view) <= 1114112 ->
  exists lines, print_view view grid_dimension = inr lines /\
    length lines = (length view + 3)%nat /\
    Forall (fun line => length line = 30%nat) lines /\
    lines !! 0%nat = Some (py "     1  2  3  4  5  6  7  8   ") /\
    lines !! 1%nat = Some grid_horizontal_edge /\
    lines !! (length view + 2)%nat = Some grid_horizontal_edge /\
    forall i, (i < length view)%nat ->
      exists rest, lines !! (i + 2)%nat = Some (65 + Z.of_nat i :: rest).
Proof. apply print_view_shape. Qed.

Lemma print_view_layout_witness :
  let v := [repeat (py "X") 8; repeat (py "_") 8; repeat (py "O") 8] in
  Forall (fun row => length row = 8%nat /\ Forall (fun c => length c = 1%nat) row) v /\
  65 + Z.of_nat (length v) <= 1114112 /\
  exists lines, print_view v grid_dimension = inr lines /\ length lines = 6%nat.
Proof.
  intros v.
  assert (Hf : Forall (fun row => length row = 8%nat /\ Forall (fun c => length c = 1%nat) row) v)
    by (apply (bool_decide_unpack _); vm_compute; reflexivity).
  split; [exact Hf|]. split; [simpl; lia|].
  destruct (print_view_layout v Hf ltac:(simpl; lia)) as (lines & E & Hl & _).
  exists lines. split; [exact E|exact Hl].
Defined.

Lemma length_py (s : string) : length (py s) = String.length s.
Proof.
  unfold py. rewrite length_map.
  induction s as [|a s IH]; [done|]. simpl. by rewrite IH.
Qed.

Lemma view_rows_ok (view : list (list pystr)) :
  view_dims view -> cells_single view ->
  Forall (fun row => length row = 8%nat /\ Forall (fun c => length c = 1%nat) row) view.
Proof.
  intros [_ Hd] Hs. induction view as [|row view IH]; [done|].
  apply Forall_cons in Hd as [Hr Hd]. apply Forall_cons in Hs as [Hc Hs].
  constructor; [done|]. by apply IH.
Qed.

Lemma zip_join_length (ls rs : list pystr) (sep : pystr) (n m : nat) :
  Forall (fun l => length l = n) ls -> Forall (fun r => length r = m) rs ->
  Forall (fun line => length line = (n + length sep + m)%nat)
    (map (fun '(a, b) => a ++ sep ++ b) (zip ls rs)).
Proof.
  intros Hl. revert rs. induction Hl as [|l ls Hl _ IH]; intros rs Hr; [done|].
  destruct rs as [|r rs]; [done|]. apply Forall_cons in Hr as [Hr Hrs].
  cbn [zip zip_with map]. constructor; [|by apply IH].
  rewrite length_app, length_app, Hl, Hr. lia.
Qed.

(** Extra X10: for a reachable human grid whose ship codes are one
    character each, and grids whose keys all pass [valid_coord],
    [render_views] prints eleven lines of 70 characters: each a 30-character
    line of the fleet view, ten spaces and a 30-character line of the
    target view. *)
Theorem render_views_layout (human computer : World) (human_keys computer_keys : list pystr) :
  reachable human ->
  dict_keys (grid human) human_keys -> dict_keys (grid computer) computer_keys ->
  Forall (fun k => valid_coord k = true) human_keys ->
  Forall (fun k => valid_coord k = true) computer_keys ->
  (forall r s, ships human !! r = Some s -> String.length (code s) = 1%nat) ->
  exists lines, render_views human computer human_keys computer_keys = inr lines /\
    length lines = 11%nat /\ Forall (fun line => length line = 70%nat) lines.
Proof.
  intros Hr [_ Hhk] [_ Hck] Hhv Hcv Hcode.
  pose proof (reachable_cells_ok human Hr) as Hok.
  unfold render_views, create_fleet_view. rewrite create_fleet_view_loop_eq.
  destruct (view_loop_ok (fleet_mark human) (grid human) human_keys _ blank_view_dims Hhv)
    as (fv & Ef & Hfd & Hfs).
  { intros k Hk. apply Hhk in Hk as [c Hc]. exists c. unfold fleet_mark.
    destruct (is_miss c); [by eexists|]. destruct (is_hit c); [by eexists|].
    destruct (Hok k c Hc) as [_ [[-> _] | (r & -> & [s Hsr] & _)]]; [by eexists|].
    rewrite Hsr. by eexists. }
  assert (Hfs' : cells_single fv).
  { apply Hfs; [apply blank_view_single|]. intros k c s _ _. unfold fleet_mark.
    destruct (is_miss c); [by intros [= <-]|]. destruct (is_hit c); [by intros [= <-]|].
    destruct (gs_ship c) as [r|]; [|done].
    destruct (ships human !! r) as [sh|] eqn:Hsh; [|done].
    intros [= <-]. rewrite length_py. by apply (Hcode r). }
  rewrite Ef. cbn [vbind].
  destruct (print_view_shape fv (view_rows_ok fv Hfd Hfs') ltac:(destruct Hfd as [-> _]; lia))
    as (fl & Efl & Hfl & Hfll & _).
  rewrite Efl. cbn [vlift vbind].
  unfold create_target_view. rewrite create_target_view_loop_eq.
  destruct (view_loop_ok target_mark (grid computer) computer_keys _ blank_view_dims Hcv)
    as (tv & Et & Htd & Hts).
  { intros k Hk. apply Hck in Hk as [c Hc]. exists c. by eexists. }
  assert (Hts' : cells_single tv).
  { apply Hts; [apply blank_view_single|]. intros k c s _ _. unfold target_mark.
    destruct (is_miss c); [by intros [= <-]|]. destruct (is_hit c); [by intros [= <-]|].
    done. }
  rewrite Et. cbn [vbind].
  destruct (print_view_shape tv (view_rows_ok tv Htd Hts') ltac:(destruct Htd as [-> _]; lia))
    as (tl & Etl & Htl & Htll & _).
  rewrite Etl. cbn [vlift vbind].
  eexists. split; [reflexivity|]. split.
  - rewrite length_map, length_zip, Hfl, Htl. destruct Hfd as [-> _]. destruct Htd as [-> _].
    done.
  - apply (zip_join_length fl tl (py "          ") 30 30 Hfll Htll).
Qed.

Lemma render_views_layout_witness :
  let human := fst (receive_attack (py "A2") (fst (receive_attack (py "B5") test_world))) in
  let computer := fst (receive_attack (py "A0") (fst (receive_attack (py "C7") test_world))) in
  reachable human /\
  dict_keys (grid human) (map_to_list (grid human)).*1 /\
  dict_keys (grid computer) (map_to_list (grid computer)).*1 /\
  Forall (fun k => valid_coord k = true) (map_to_list (grid human)).*1 /\
  Forall (fun k => valid_coord k = true) (map_to_list (grid computer)).*1 /\
  (forall r s, ships human !! r = Some s -> String.length (code s) = 1%nat) /\
  exists lines, render_views human computer (map_to_list (grid human)).*1
                  (map_to_list (grid computer)).*1 = inr lines /\ length lines = 11%nat.
Proof.
  intros human computer.
  assert (Hr : reachable human).
  { apply reach_attack, reach_attack. unfold test_world.
    change (reachable (fst (place_ship 1 (py "C7") PORTRAIT
      (fst (place_ship 0 (py "A1") LANDSCAPE
        (fresh_world (<[0%nat := Ship_submarine]> (<[1%nat := Ship_destroyer]> ∅)))))))).
    apply reach_place, reach_place, reach_fresh. }
  assert (Hhv : Forall (fun k => valid_coord k = true) (map_to_list (grid human)).*1)
    by (apply (bool_decide_unpack _); vm_compute; reflexivity).
  assert (Hcv : Forall (fun k => valid_coord k = true) (map_to_list (grid computer)).*1)
    by (apply (bool_decide_unpack _); vm_compute; reflexivity).
  assert (Hc : map_Forall (fun _ s => String.length (code s) = 1%nat) (ships human))
    by (apply (bool_decide_unpack _); vm_compute; reflexivity).
  assert (Hcode : forall r s, ships human !! r = Some s -> String.length (code s) = 1%nat)
    by (intros r s Hs; exact (map_Forall_lookup_1 _ _ _ _ Hc Hs)).
  do 5 (split; [first [exact Hr | apply dict_keys_map_to_list | exact Hhv | exact Hcv]|]).
  split; [exact Hcode|].
  destruct (render_views_layout human computer _ _ Hr (dict_keys_map_to_list _)
              (dict_keys_map_to_list _) Hhv Hcv Hcode) as (lines & E & Hl & _).
  exists lines. split; [exact E|exact Hl].
Defined.

(** Extra X11: every index pair of the board survives encoding and
    decoding: [index_tuple_to_coord_tuple] and [_tuple_to_coord] give a
    coordinate string that [split_coord] and [coord_tuple_to_index_tuple]
    map back to the same pair. *)
Theorem encode_decode_index (x y : Z) :
  0 <= x < 8 -> 0 <= y < 8 -> sbind (encode_index (x, y)) decode_coord = inr (x, y).
Proof.
  intros Hx Hy. rewrite encode_index_board by done. cbn [sbind].
  assert (Hsv : spec_valid_coord [65 + x; 49 + y] = true).
  { simpl. unfold is_A_H.
    rewrite (proj2 (Z.leb_le 65 (65 + x)) ltac:(lia)), (proj2 (Z.leb_le (65 + x) 72) ltac:(lia)).
    by rewrite (proj2 (Z.leb_le 49 (49 + y)) ltac:(lia)), (proj2 (Z.leb_le (49 + y) 56) ltac:(lia)). }
  destruct (valid_key_pos _ (spec_valid_valid _ Hsv))
    as (l & d & _ & _ & Hk & Hs & Hi & _).
  unfold decode_coord. rewrite Hs. cbn [sbind]. rewrite Hi.
  destruct Hk as [Hk|Hk]; [|done]. injection Hk as <- <-. f_equal. f_equal; lia.
Qed.

Lemma encode_decode_index_witness :
  0 <= 3 < 8 /\ 0 <= 6 < 8 /\ sbind (encode_index (3, 6)) decode_coord = inr (3, 6).
Proof.
  split; [lia|]. split; [lia|]. apply encode_decode_index; lia.
Defined.
